(** * Fraud prover service: a shallow embedding and its verified properties

    The development follows [FraudProverService] (the service class) and
    [run-fraud-prover.ts] (the executable entry point).

    - Section 1: the data model (proof records, options, submissions).
    - Section 2: the effect model.  Every [await] on a collaborator (the two
      RPC providers, the on-chain contracts, the wallet) is a [Call]; the
      answers come from an abstract world through [perform].  The service is
      written in a state-and-error monad whose state carries the world, the
      scanner cursor [nextUnverifiedStateRoot] and the list of transactions
      the service has submitted so far.
    - Section 3: the service methods, in source order.
    - Section 4: the entry point and the option defaults.
    - Section 5: the vocabulary of the statements; Section 6: concrete
      collaborators on which the service can be run.
    - Section 7: general lemmas; Section 8: the verified properties.

    Conventions.  JavaScript numbers that hold indices and gas limits are
    modelled as [Z] (they stay far below 2^53 in every run of interest);
    [logger] calls have no effect on the service and are omitted; a thrown
    error is represented by the string [err.toString()] would return (the
    service inspects errors in no other way); loops that the source writes
    as [while] take a fuel argument and report [OutOfFuel] when it is
    exhausted.  The texts of the errors raised by the JavaScript runtime and
    by [ethers] ([TypeError], numeric overflow) are approximated: no filter
    of the service matches them. *)

From Stdlib Require Import ZArith String Ascii List Bool Lia.
From stdpp Require Import base strings gmap list.

Local Open Scope Z_scope.

(* ===================================================================== *)
(** ** 1. Data model *)
(* ===================================================================== *)

(** Modelled from the spec: the declarations of [../types] are not among
    the sources.  The records below follow the data model of the spec
    (section 3) and the fields the service reads; hexadecimal data are
    strings, as in the source. *)
Record StorageStateProof := {
  key : string;
  value : string;
  proof : list string;
}.

Record AccountStateProof := {
  address : string;
  nonce : Z;
  balance : Z;
  codeHash : string;
  storageRoot : string;
  accountProof : list string;
  storageProof : list StorageStateProof;
}.

Record StateDiffProof := {
  header : string;
  accountStateProofs : list AccountStateProof;
}.

Record BatchHeader := {
  batchIndex : Z;
  batchRoot : string;
  batchSize : Z;
  prevTotalElements : Z;
  extraData : string;
}.

Record InclusionProof := {
  index : Z;
  siblings : list string;
}.

Record StateRootBatchProof := {
  stateRoot : string;
  stateRootBatchHeader : BatchHeader;
  stateRootProof : InclusionProof;
}.

Record OvmTransaction := {
  timestamp : Z;
  blockNumber : Z;
  l1QueueOrigin : Z;
  l1TxOrigin : string;
  entrypoint : string;
  gasLimit : Z;
  data : string;
}.

(** The inclusion proof is the field [transactionProof] of the source; it
    is renamed because [FraudProofData] has a field of that name too. *)
Record TransactionBatchProof := {
  transaction : OvmTransaction;
  transactionChainElement : string;
  transactionBatchHeader : BatchHeader;
  transactionInclusionProof : InclusionProof;
}.

(** What [OVM_StateManager.getAccount] returns. *)
Record AccountState := {
  acc_nonce : Z;
  acc_balance : Z;
  acc_storageRoot : string;
  acc_codeHash : string;
}.

(** Modelled from the spec: the enumeration [StateTransitionPhase] of
    [../types], with the three phases of the transitioner. *)
Inductive StateTransitionPhase := PRE_EXECUTION | POST_EXECUTION | COMPLETE.

Definition phase_eqb (p q : StateTransitionPhase) : bool :=
  match p, q with
  | PRE_EXECUTION, PRE_EXECUTION => true
  | POST_EXECUTION, POST_EXECUTION => true
  | COMPLETE, COMPLETE => true
  | _, _ => false
  end.

(** [event.args] of an [AccountCommitted] event. *)
Record AccountCommittedEvent := { ace_address : string }.

(** [event.args] of a [ContractStorageCommitted] event. *)
Record ContractStorageCommittedEvent := { sce_address : string; sce_key : string }.

(** The [TransactionReceipt] fields the service reads. *)
Record Receipt := { contractAddress : string }.

Record FraudProverOptions := {
  deployGasLimit : Z;
  runGasLimit : Z;
  pollingInterval : Z;
  fromL2TransactionIndex : Z;
  l2BlockOffset : Z;
}.

(** Every transaction the service can submit to the settlement chain. *)
Inductive Submission :=
| InitializeFraudVerification (pre : StateRootBatchProof) (txp : TransactionBatchProof)
| SendTransaction (to : option string) (txdata : string) (gas : Z)
| ProveContractState (st addr carrier encodedProof : string)
| ProveStorageSlot (st addr slotKey encodedProof : string)
| ApplyTransaction (st : string) (tx : OvmTransaction) (gas : Z)
| CommitContractState (st addr inclusionProof : string) (gas : Z)
| CommitStorageSlot (st addr slotKey inclusionProof : string) (gas : Z)
| CompleteTransition (st : string)
| FinalizeFraudVerification (pre post : StateRootBatchProof) (txHash : string).

Definition isCommitContractState (x : Submission) : bool :=
  match x with CommitContractState _ _ _ _ => true | _ => false end.

Definition isCommitStorageSlot (x : Submission) : bool :=
  match x with CommitStorageSlot _ _ _ _ _ => true | _ => false end.

(* ===================================================================== *)
(** ** 2. Effects *)
(* ===================================================================== *)

(** The result of running a piece of the service. *)
Inductive outcome (A : Type) :=
| Ret (a : A)
| Throw (err : string)
| OutOfFuel.
Arguments Ret {A} a.
Arguments Throw {A} err.
Arguments OutOfFuel {A}.

(** One constructor per awaited collaborator method.  Contract handles are
    represented by the contract's address ([st] a state transitioner, [sm] a
    state manager). *)
Inductive Call : Type -> Type :=
(* L1ProviderWrapper *)
| L1_getStateRootBatchHeader (i : Z) : Call (option BatchHeader)
| L1_getStateRoot (i : Z) : Call string
| L1_getStateRootBatchProof (i : Z) : Call StateRootBatchProof
| L1_getTransactionBatchProof (i : Z) : Call TransactionBatchProof
(* L2ProviderWrapper and the L2 JSON-RPC provider *)
| L2_getStateRoot (i : Z) : Call string
| L2_getStateDiffProof (i : Z) : Call StateDiffProof
| L2_getCode (addr : string) (blk : Z) : Call string
(* OVM_FraudVerifier *)
| FV_getStateTransitioner (preStateRoot txHash : string) : Call string
(* OVM_StateTransitioner *)
| ST_phase (st : string) : Call StateTransitionPhase
| ST_ovmStateManager (st : string) : Call string
| ST_queryAccountCommitted (st : string) : Call (list AccountCommittedEvent)
| ST_queryContractStorageCommitted (st : string) : Call (list ContractStorageCommittedEvent)
(* OVM_StateManager; the two counters are [uint256] values, compared
   with [> 0] *)
| SM_hasAccount (sm addr : string) : Call bool
| SM_getAccount (sm addr : string) : Call AccountState
| SM_getTotalUncommittedAccounts (sm : string) : Call N
| SM_wasAccountCommitted (sm addr : string) : Call bool
| SM_wasAccountChanged (sm addr : string) : Call bool
| SM_getTotalUncommittedContractStorage (sm : string) : Call N
| SM_getContractStorage (sm addr slotKey : string) : Call string
| SM_wasContractStorageCommitted (sm addr slotKey : string) : Call bool
| SM_wasContractStorageChanged (sm addr slotKey : string) : Call bool
(* a transaction submission (wallet or contract method); answers the
   transaction response, here its hash *)
| Submit (tx : Submission) : Call string
(* [response.wait()] *)
| Tx_wait (response : string) : Call Receipt.

(** The submission a call issues, if it is one. *)
Definition logged {A} (c : Call A) : list Submission :=
  match c with
  | Submit tx => [tx]
  | _ => []
  end.

(** The collaborators: a world and the way it answers a call.  Reads too may
    change the world: other provers act between two of our calls. *)
Record Env := {
  W : Type;
  perform : forall A, Call A -> W -> outcome A * W;
}.
Arguments perform E {A} c w : rename.

(** The helpers imported from [../utils], [rlp], [ethers] and
    [merkle-patricia-tree], which are not part of the service: they are
    parameters of the development.  The three trie operations may throw. *)
Record Lib := {
  Trie : Type;
  makeTrieFromProofs : list (list string) -> outcome Trie;
  trie_put : Trie -> string -> string -> outcome Trie;
  createProof : Trie -> string -> outcome (list string);
  rlp_encode : list string -> string;
  rlp_encode_hex : string -> string;
  keccak256 : string -> string;
  toHexString : string -> string;
  fromHexString : string -> string;
  toStrippedHexString : string -> string;
  toBytes32 : string -> string;
  encodeAccountState : AccountState -> string;
  hashOvmTransaction : OvmTransaction -> string;
}.

(** [String.prototype.includes]. *)
Fixpoint includes (s pat : string) : bool :=
  String.prefix pat s ||
  match s with
  | EmptyString => false
  | String _ s' => includes s' pat
  end.

(** [String.prototype.slice(n)] for [0 <= n]. *)
Fixpoint slice (n : nat) (s : string) : string :=
  match n, s with
  | O, _ => s
  | S n', String _ s' => slice n' s'
  | S _, EmptyString => EmptyString
  end.

Definition lower_ascii (c : ascii) : ascii :=
  let n := nat_of_ascii c in
  if (65 <=? n)%nat && (n <=? 90)%nat then ascii_of_nat (n + 32) else c.

(** [String.prototype.toLowerCase] on the ASCII range (addresses and keys
    are hexadecimal strings). *)
Fixpoint toLowerCase (s : string) : string :=
  match s with
  | EmptyString => EmptyString
  | String c s' => String (lower_ascii c) (toLowerCase s')
  end.

(** [BigNumber.prototype.toNumber]: fails outside the 53-bit range. *)
Definition toNumber (z : Z) : outcome Z :=
  if Z.abs z <? 2 ^ 53 then Ret z else Throw "Error: overflow".

(** Modelled from the spec: the constant [ZERO_ADDRESS] of [../utils], the
    zero address. *)
Definition ZERO_ADDRESS : string := "0x0000000000000000000000000000000000000000".

Section Service.

Context (E : Env) (L : Lib) (options : FraudProverOptions).

(** The mutable state: the world, [this.state.nextUnverifiedStateRoot] and
    the submissions issued so far (oldest first). *)
Record St := {
  world : W E;
  nextUnverifiedStateRoot : Z;
  sent : list Submission;
}.

Definition M (A : Type) : Type := St -> outcome A * St.

Definition ret {A} (a : A) : M A := fun s => (Ret a, s).

Definition throw {A} (e : string) : M A := fun s => (Throw e, s).

Definition outOfFuel {A} : M A := fun s => (OutOfFuel, s).

Definition bind {A B} (m : M A) (k : A -> M B) : M B :=
  fun s =>
    match m s with
    | (Ret a, s') => k a s'
    | (Throw e, s') => (Throw e, s')
    | (OutOfFuel, s') => (OutOfFuel, s')
    end.

(** [try { m } catch (err) { h err }]. *)
Definition catch {A} (m : M A) (h : string -> M A) : M A :=
  fun s =>
    match m s with
    | (Throw e, s') => h e s'
    | r => r
    end.

(** A pure helper that may throw. *)
Definition lift {A} (o : outcome A) : M A := fun s => (o, s).

(** An awaited collaborator call; a submission is recorded when issued,
    whether or not it reverts. *)
Definition call {A} (c : Call A) : M A :=
  fun s =>
    let (r, w') := perform E c (world s) in
    (r, {| world := w';
           nextUnverifiedStateRoot := nextUnverifiedStateRoot s;
           sent := sent s ++ logged c |}).

Definition getCursor : M Z := fun s => (Ret (nextUnverifiedStateRoot s), s).

Definition setCursor (z : Z) : M unit :=
  fun s => (Ret tt, {| world := world s; nextUnverifiedStateRoot := z; sent := sent s |}).

Notation "'let*' x ':=' m 'in' k" := (bind m (fun x => k))
  (at level 10, x name, m at level 100, k at level 200).
Notation "m ';;' k" := (bind m (fun _ => k))
  (at level 100, k at level 200, right associativity).

(* ===================================================================== *)
(** ** 3. The service *)
(* ===================================================================== *)

(** [_findNextFraudulentStateRoot]: the fuel bounds the number of
    iterations of the [while]. *)
Fixpoint _findNextFraudulentStateRoot (fuel : nat) : M (option Z) :=
  match fuel with
  | O => outOfFuel
  | S fuel' =>
      let* c := getCursor in
      let* h := call (L1_getStateRootBatchHeader c) in
      match h with
      | None => ret None
      | Some _ =>
          let* c1 := getCursor in
          let* l1StateRoot := call (L1_getStateRoot c1) in
          let* c2 := getCursor in
          let* l2StateRoot := call (L2_getStateRoot (c2 + l2BlockOffset options)) in
          if negb (String.eqb l1StateRoot l2StateRoot) then
            let* c3 := getCursor in ret (Some c3)
          else
            let* c3 := getCursor in
            setCursor (c3 + 1) ;;
            _findNextFraudulentStateRoot fuel'
      end
  end.

Record FraudProofData := {
  stateDiffProof : StateDiffProof;
  transactionProof : TransactionBatchProof;
  preStateRootProof : StateRootBatchProof;
  postStateRootProof : StateRootBatchProof;
  stateTrie : Trie L;
  storageTries : gmap string (Trie L);
}.

(** [_makeStateTrie]. *)
Definition _makeStateTrie (p : StateDiffProof) : M (Trie L) :=
  lift (makeTrieFromProofs L (map accountProof (accountStateProofs p))).

(** The [for ... of] of [_makeAccountTries]; [accountTries] is the object
    being filled. *)
Fixpoint _makeAccountTries_from (accounts : list AccountStateProof)
    (accountTries : gmap string (Trie L)) : M (gmap string (Trie L)) :=
  match accounts with
  | [] => ret accountTries
  | accountStateProof :: rest =>
      let* t := lift (makeTrieFromProofs L (map proof (storageProof accountStateProof))) in
      _makeAccountTries_from rest (<[address accountStateProof := t]> accountTries)
  end.

Definition _makeAccountTries (p : StateDiffProof) : M (gmap string (Trie L)) :=
  _makeAccountTries_from (accountStateProofs p) ∅.

(** [_getFraudProofData]. *)
Definition _getFraudProofData (transactionIndex : Z) : M FraudProofData :=
  let* pre := call (L1_getStateRootBatchProof (transactionIndex - 1)) in
  let* post := call (L1_getStateRootBatchProof transactionIndex) in
  let* txp := call (L1_getTransactionBatchProof transactionIndex) in
  let* sdp := call (L2_getStateDiffProof (transactionIndex + l2BlockOffset options - 1)) in
  let* trie := _makeStateTrie sdp in
  let* tries := _makeAccountTries sdp in
  ret {| stateDiffProof := sdp;
         transactionProof := txp;
         preStateRootProof := pre;
         postStateRootProof := post;
         stateTrie := trie;
         storageTries := tries |}.

(** [_getStateTransitioner]. *)
Definition _getStateTransitioner (preStateRoot : string) (tx : OvmTransaction) : M string :=
  call (FV_getStateTransitioner preStateRoot (hashOvmTransaction L tx)).

(** [_getFraudProofContracts]: the two handles, as addresses. *)
Definition _getFraudProofContracts (preStateRoot : string) (tx : OvmTransaction)
    : M (string * string) :=
  let* stateTransitionerAddress := _getStateTransitioner preStateRoot tx in
  let* stateManagerAddress := call (ST_ovmStateManager stateTransitionerAddress) in
  ret (stateTransitionerAddress, stateManagerAddress).

Definition deployPrefix : string := "0x600D380380600D6000396000f3".

(** [_deployContractCode]. *)
Definition _deployContractCode (code : string) : M string :=
  let deployCode := deployPrefix +:+ slice 2 (toHexString L code) in
  let* response := call (Submit (SendTransaction None deployCode (deployGasLimit options))) in
  let* result := call (Tx_wait response) in
  ret (contractAddress result).

Definition codeSentinel : string := "0x0000c0De0000C0DE0000c0de0000C0DE0000c0De".

(** One iteration of the [for ... of] of [_proveAccountStates].  The
    [if (await OVM_StateManager.hasAccount(...))] of the source only logs:
    its body has no [continue], so the answer is read and dropped. *)
Definition _proveAccountState (st sm : string) (accountStateProof : AccountStateProof)
    (fraudulentStateRootIndex : Z) : M unit :=
  let* _hasAccount := call (SM_hasAccount sm (address accountStateProof)) in
  let* accountCode :=
    call (L2_getCode (address accountStateProof)
                     (fraudulentStateRootIndex + l2BlockOffset options)) in
  let* ethContractAddress :=
    if negb (String.eqb accountCode "0x")
    then _deployContractCode accountCode
    else ret codeSentinel in
  catch
    (call (Submit (ProveContractState st (address accountStateProof) ethContractAddress
                     (rlp_encode L (accountProof accountStateProof)))) ;;
     ret tt)
    (fun err =>
       if includes err "Account state has already been proven"
       then ret tt
       else throw err).

(** [_proveAccountStates]. *)
Fixpoint _proveAccountStates (st sm : string) (accounts : list AccountStateProof)
    (fraudulentStateRootIndex : Z) : M unit :=
  match accounts with
  | [] => ret tt
  | accountStateProof :: rest =>
      _proveAccountState st sm accountStateProof fraudulentStateRootIndex ;;
      _proveAccountStates st sm rest fraudulentStateRootIndex
  end.

(** The inner [for ... of] of [_proveContractStorageStates]. *)
Fixpoint _proveStorageSlots (st addr : string) (slots : list StorageStateProof) : M unit :=
  match slots with
  | [] => ret tt
  | slot :: rest =>
      catch
        (call (Submit (ProveStorageSlot st addr (toBytes32 L (key slot))
                         (rlp_encode L (proof slot)))) ;;
         ret tt)
        (fun err =>
           if includes err "Storage slot has already been proven."
           then ret tt
           else throw err) ;;
      _proveStorageSlots st addr rest
  end.

(** [_proveContractStorageStates]. *)
Fixpoint _proveContractStorageStates (st : string) (accounts : list AccountStateProof)
    : M unit :=
  match accounts with
  | [] => ret tt
  | accountStateProof :: rest =>
      _proveStorageSlots st (address accountStateProof) (storageProof accountStateProof) ;;
      _proveContractStorageStates st rest
  end.

(** [accountStateProofs.filter(... accountCommittedEvents.some(...))]. *)
Definition committedAccountsOf (events : list AccountCommittedEvent)
    (accounts : list AccountStateProof) : list AccountStateProof :=
  List.filter
    (fun account =>
       existsb (fun event =>
                  String.eqb (toLowerCase (ace_address event)) (toLowerCase (address account)))
               events)
    accounts.

(** The [for (const account of committedAccounts)] of [_updateAccountStates];
    the trie object is threaded through. *)
Fixpoint putCommittedAccounts (sm : string) (committedAccounts : list AccountStateProof)
    (trie : Trie L) : M (Trie L) :=
  match committedAccounts with
  | [] => ret trie
  | account :: rest =>
      let* updatedAccountState := call (SM_getAccount sm (address account)) in
      let* n := lift (toNumber (acc_nonce updatedAccountState)) in
      let* trie' :=
        lift (trie_put L trie
                (fromHexString L (keccak256 L (address account)))
                (encodeAccountState L
                   {| acc_nonce := n;
                      acc_balance := acc_balance updatedAccountState;
                      acc_storageRoot := acc_storageRoot updatedAccountState;
                      acc_codeHash := acc_codeHash updatedAccountState |})) in
      putCommittedAccounts sm rest trie'
  end.

(** The search for [nextUncommittedAccount]; [&&] evaluates its second
    operand only when the first holds. *)
Fixpoint findNextUncommittedAccount (sm : string) (accounts : list AccountStateProof)
    : M (option AccountStateProof) :=
  match accounts with
  | [] => ret None
  | account :: rest =>
      let* committed := call (SM_wasAccountCommitted sm (address account)) in
      if negb committed then
        let* changed := call (SM_wasAccountChanged sm (address account)) in
        if changed then ret (Some account)
        else findNextUncommittedAccount sm rest
      else findNextUncommittedAccount sm rest
  end.

(** The filter of the [catch] around [commitContractState]. *)
Definition accountCommitInvalidated (err : string) : bool :=
  includes err "invalid opcode" ||
  includes err "Invalid root hash" ||
  includes err "Account state wasn't changed or has already been committed.".

(** The [try ... catch] around [commitContractState]. *)
Definition tryCommitContractState (st addr accountInclusionProof : string) : M unit :=
  catch
    (call (Submit (CommitContractState st addr accountInclusionProof
                     (deployGasLimit options))) ;;
     ret tt)
    (fun err => if accountCommitInvalidated err then ret tt else throw err).

Definition noMoreAccountProofData : string :=
  "Error: We still have accounts to commit, but we don't have any more proof data. Something went very wrong.".

(** What one pass through the body of a [while] asks for next. *)
Inductive LoopStep (A : Type) := Continue (a : A) | Return.
Arguments Continue {A} a.
Arguments Return {A}.

(** The body of the [while] of [_updateAccountStates]. *)
Definition _updateAccountStates_body (st sm : string) (accounts : list AccountStateProof)
    (trie : Trie L) : M (LoopStep (Trie L)) :=
  let* accountCommittedEvents := call (ST_queryAccountCommitted st) in
  let committedAccounts := committedAccountsOf accountCommittedEvents accounts in
  let* trie' := putCommittedAccounts sm committedAccounts trie in
  let* nextUncommittedAccount := findNextUncommittedAccount sm accounts in
  match nextUncommittedAccount with
  | None =>
      let* n := call (SM_getTotalUncommittedAccounts sm) in
      if (0 <? n)%N then throw noMoreAccountProofData else ret Return
  | Some next =>
      let* nodes := lift (createProof L trie' (fromHexString L (keccak256 L (address next)))) in
      let accountInclusionProof := toHexString L (rlp_encode L nodes) in
      let* _updatedAccountState := call (SM_getAccount sm (address next)) in
      tryCommitContractState st (address next) accountInclusionProof ;;
      ret (Continue trie')
  end.

(** [_updateAccountStates]. *)
Fixpoint _updateAccountStates (fuel : nat) (st sm : string)
    (accounts : list AccountStateProof) (trie : Trie L) : M unit :=
  match fuel with
  | O => outOfFuel
  | S fuel' =>
      let* n := call (SM_getTotalUncommittedAccounts sm) in
      if (0 <? n)%N then
        let* step := _updateAccountStates_body st sm accounts trie in
        match step with
        | Return => ret tt
        | Continue trie' => _updateAccountStates fuel' st sm accounts trie'
        end
      else ret tt
  end.

(** [accountStateProof.storageProof.filter(... storageCommittedEvents.some(...))]. *)
Definition committedStorageSlotsOf (events : list ContractStorageCommittedEvent)
    (accountStateProof : AccountStateProof) : list StorageStateProof :=
  List.filter
    (fun sp =>
       existsb (fun event =>
                  String.eqb (toLowerCase (sce_address event))
                             (toLowerCase (address accountStateProof)) &&
                  String.eqb (toLowerCase (sce_key event)) (toLowerCase (key sp)))
               events)
    (storageProof accountStateProof).

Definition undefinedTrie : string :=
  "TypeError: Cannot read property 'put' of undefined".

(** [storageTries[address]], an error when the object has no such key. *)
Definition trieOf (tries : gmap string (Trie L)) (addr : string) : M (Trie L) :=
  match tries !! addr with
  | Some t => ret t
  | None => throw undefinedTrie
  end.

(** The [for (const storageProof of committedStorageSlots)] of
    [_updateContractStorageStates]. *)
Fixpoint putCommittedSlots (sm addr : string) (slots : list StorageStateProof)
    (tries : gmap string (Trie L)) : M (gmap string (Trie L)) :=
  match slots with
  | [] => ret tries
  | sp :: rest =>
      let* updatedSlotValue := call (SM_getContractStorage sm addr (key sp)) in
      let* t := trieOf tries addr in
      let* t' :=
        lift (trie_put L t
                (fromHexString L (keccak256 L (key sp)))
                (fromHexString L (rlp_encode_hex L (toStrippedHexString L updatedSlotValue)))) in
      putCommittedSlots sm addr rest (<[addr := t']> tries)
  end.

(** The first [for (const accountStateProof of accountStateProofs)] of the
    [while] of [_updateContractStorageStates]. *)
Fixpoint syncStorageTries (sm : string) (events : list ContractStorageCommittedEvent)
    (accounts : list AccountStateProof) (tries : gmap string (Trie L))
    : M (gmap string (Trie L)) :=
  match accounts with
  | [] => ret tries
  | accountStateProof :: rest =>
      let* tries' :=
        putCommittedSlots sm (address accountStateProof)
          (committedStorageSlotsOf events accountStateProof) tries in
      syncStorageTries sm events rest tries'
  end.

(** The search for [nextUncommittedStorageProof]. *)
Fixpoint findNextUncommittedSlot (sm addr : string) (slots : list StorageStateProof)
    : M (option StorageStateProof) :=
  match slots with
  | [] => ret None
  | sp :: rest =>
      let* committed := call (SM_wasContractStorageCommitted sm addr (key sp)) in
      if negb committed then
        let* changed := call (SM_wasContractStorageChanged sm addr (key sp)) in
        if changed then ret (Some sp)
        else findNextUncommittedSlot sm addr rest
      else findNextUncommittedSlot sm addr rest
  end.

(** The filter of the [catch] around [commitStorageSlot]. *)
Definition storageCommitInvalidated (err : string) : bool :=
  includes err "invalid opcode" ||
  includes err "Invalid root hash" ||
  includes err "Storage slot value wasn't changed or has already been committed.".

(** The [try ... catch] around [commitStorageSlot]. *)
Definition tryCommitStorageSlot (st addr slotKey slotInclusionProof : string) : M unit :=
  catch
    (call (Submit (CommitStorageSlot st addr slotKey slotInclusionProof
                     (deployGasLimit options))) ;;
     ret tt)
    (fun err => if storageCommitInvalidated err then ret tt else throw err).

Definition undefinedTrieProof : string :=
  "TypeError: Cannot read property 'get' of undefined".

(** The second [for (const accountStateProof of accountStateProofs)] of the
    [while] of [_updateContractStorageStates]. *)
Fixpoint commitStorageSlots (st sm : string) (accounts : list AccountStateProof)
    (tries : gmap string (Trie L)) : M unit :=
  match accounts with
  | [] => ret tt
  | accountStateProof :: rest =>
      let* nextUncommittedStorageProof :=
        findNextUncommittedSlot sm (address accountStateProof)
          (storageProof accountStateProof) in
      match nextUncommittedStorageProof with
      | None => commitStorageSlots st sm rest tries
      | Some next =>
          let* nodes :=
            match tries !! address accountStateProof with
            | Some t => lift (createProof L t (fromHexString L (keccak256 L (key next))))
            | None => throw undefinedTrieProof
            end in
          let slotInclusionProof := toHexString L (rlp_encode L nodes) in
          let* _updatedSlotValue :=
            call (SM_getContractStorage sm (address accountStateProof) (key next)) in
          tryCommitStorageSlot st (address accountStateProof) (key next) slotInclusionProof ;;
          commitStorageSlots st sm rest tries
      end
  end.

(** [_updateContractStorageStates]. *)
Fixpoint _updateContractStorageStates (fuel : nat) (st sm : string)
    (accounts : list AccountStateProof) (tries : gmap string (Trie L)) : M unit :=
  match fuel with
  | O => outOfFuel
  | S fuel' =>
      let* n := call (SM_getTotalUncommittedContractStorage sm) in
      if (0 <? n)%N then
        let* storageCommittedEvents := call (ST_queryContractStorageCommitted st) in
        let* tries' := syncStorageTries sm storageCommittedEvents accounts tries in
        commitStorageSlots st sm accounts tries' ;;
        _updateContractStorageStates fuel' st sm accounts tries'
      else ret tt
  end.

(** [_initializeFraudVerification]. *)
Definition _initializeFraudVerification (pre : StateRootBatchProof)
    (txp : TransactionBatchProof) : M unit :=
  let* stateTransitionerAddress := _getStateTransitioner (stateRoot pre) (transaction txp) in
  if negb (String.eqb stateTransitionerAddress ZERO_ADDRESS) then ret tt
  else
    call (Submit (InitializeFraudVerification pre txp)) ;;
    ret tt.

(** [_finalizeFraudVerification]. *)
Definition _finalizeFraudVerification (pre post : StateRootBatchProof)
    (tx : OvmTransaction) : M unit :=
  call (Submit (FinalizeFraudVerification pre post (hashOvmTransaction L tx))) ;;
  ret tt.

(** The [catch] shared by the PRE_EXECUTION and POST_EXECUTION blocks. *)
Definition phaseCompletedByOther (err : string) : M unit :=
  if includes err "Function must be called during the correct phase."
  then ret tt
  else throw err.

(** The PRE_EXECUTION block of [_start]. *)
Definition _start_preExecution (st sm : string) (p : FraudProofData)
    (fraudulentStateRootIndex : Z) : M unit :=
  let* ph := call (ST_phase st) in
  if phase_eqb ph PRE_EXECUTION then
    catch
      (_proveAccountStates st sm (accountStateProofs (stateDiffProof p))
         fraudulentStateRootIndex ;;
       _proveContractStorageStates st (accountStateProofs (stateDiffProof p)) ;;
       call (Submit (ApplyTransaction st (transaction (transactionProof p))
                       (runGasLimit options))) ;;
       ret tt)
      phaseCompletedByOther
  else ret tt.

(** The POST_EXECUTION block of [_start]. *)
Definition _start_postExecution (fuel : nat) (st sm : string) (p : FraudProofData)
    : M unit :=
  let* ph := call (ST_phase st) in
  if phase_eqb ph POST_EXECUTION then
    catch
      (_updateContractStorageStates fuel st sm
         (accountStateProofs (stateDiffProof p)) (storageTries p) ;;
       _updateAccountStates fuel st sm
         (accountStateProofs (stateDiffProof p)) (stateTrie p) ;;
       call (Submit (CompleteTransition st)) ;;
       ret tt)
      phaseCompletedByOther
  else ret tt.

(** The COMPLETE block of [_start]. *)
Definition _start_complete (st : string) (p : FraudProofData) : M unit :=
  let* ph := call (ST_phase st) in
  if phase_eqb ph COMPLETE then
    catch
      (_finalizeFraudVerification (preStateRootProof p) (postStateRootProof p)
         (transaction (transactionProof p)))
      (fun err =>
         if includes err "Invalid batch header." || includes err "Index out of bounds."
         then ret tt
         else throw err)
  else ret tt.

(** The part of the [try] block of [_start] that follows the scanner, up to
    (not including) the assignment to [nextUnverifiedStateRoot]. *)
Definition _start_dispute (fuel : nat) (fraudulentStateRootIndex : Z) : M FraudProofData :=
  let* p := _getFraudProofData fraudulentStateRootIndex in
  _initializeFraudVerification (preStateRootProof p) (transactionProof p) ;;
  let* preStateRoot := call (L1_getStateRoot (fraudulentStateRootIndex - 1)) in
  let* contracts := _getFraudProofContracts preStateRoot (transaction (transactionProof p)) in
  let st := fst contracts in
  let sm := snd contracts in
  _start_preExecution st sm p fraudulentStateRootIndex ;;
  _start_postExecution fuel st sm p ;;
  _start_complete st p ;;
  ret p.

(** The [try] block of one iteration of the [while (this.running)] of
    [_start]. *)
Definition _start_try (fuel : nat) : M unit :=
  let* fraudulentStateRootIndex := _findNextFraudulentStateRoot fuel in
  match fraudulentStateRootIndex with
  | None => ret tt
  | Some i =>
      let* p := _start_dispute fuel i in
      let* n := lift (toNumber (prevTotalElements (stateRootBatchHeader (preStateRootProof p)))) in
      setCursor n
  end.

(** One iteration of the [while (this.running)] of [_start]: the [catch]
    only logs. *)
Definition _start_iteration (fuel : nat) : M unit :=
  catch (_start_try fuel) (fun _ => ret tt).


End Service.

Arguments world {E} s.
Arguments stateDiffProof {L} f.
Arguments transactionProof {L} f.
Arguments preStateRootProof {L} f.
Arguments postStateRootProof {L} f.
Arguments stateTrie {L} f.
Arguments storageTries {L} f.
Arguments nextUnverifiedStateRoot {E} s.
Arguments sent {E} s.

(* ===================================================================== *)
(** ** 4. Options: the service defaults and the entry point *)
(* ===================================================================== *)

(** [FraudProverService.defaultOptions]. *)
Definition defaultOptions : FraudProverOptions :=
  {| pollingInterval := 5000;
     deployGasLimit := 4000000;
     runGasLimit := 9500000;
     fromL2TransactionIndex := 0;
     l2BlockOffset := 1 |}.












(** [_init], as far as the cursor goes:
    [this.options.fromL2TransactionIndex || 0]. *)
Definition initialCursor (options : FraudProverOptions) : Z :=
  if fromL2TransactionIndex options =? 0 then 0 else fromL2TransactionIndex options.

Definition initialState (E : Env) (options : FraudProverOptions) (w : W E) : St E :=
  {| world := w; nextUnverifiedStateRoot := initialCursor options; sent := [] |}.

(* ===================================================================== *)
(** ** 5. Vocabulary of the statements *)
(* ===================================================================== *)

(** [s] with its cursor replaced. *)
Definition withCursor {E} (s : St E) (z : Z) : St E :=
  {| world := world s; nextUnverifiedStateRoot := z; sent := sent s |}.

(** A read whose answer never changes and which leaves the world alone. *)
Definition answers (E : Env) {A} (c : Call A) (a : A) : Prop :=
  forall w, perform E c w = (Ret a, w).

(** The two chains as the scanner sees them while nobody writes: batch
    headers [hdr], settlement-chain roots [root1], rollup roots [root2]. *)
Definition quiescent (E : Env) (hdr : Z -> option BatchHeader) (root1 root2 : Z -> string)
    : Prop :=
  (forall i, answers E (L1_getStateRootBatchHeader i) (hdr i)) /\
  (forall i, answers E (L1_getStateRoot i) (root1 i)) /\
  (forall i, answers E (L2_getStateRoot i) (root2 i)).

(** Index [i] carries a batch header and the two roots agree there. *)
Definition agrees (options : FraudProverOptions) (hdr : Z -> option BatchHeader)
    (root1 root2 : Z -> string) (i : Z) : Prop :=
  hdr i <> None /\ root1 i = root2 (i + l2BlockOffset options).

(** [m] appends to the log only submissions satisfying [P]. *)
Definition emits (E : Env) {A} (P : Submission -> Prop) (m : M E A) : Prop :=
  forall s, exists l, sent (snd (m s)) = sent s ++ l /\ Forall P l.

(** [m] leaves the cursor where it is. *)
Definition keepsCursor (E : Env) {A} (m : M E A) : Prop :=
  forall s, nextUnverifiedStateRoot (snd (m s)) = nextUnverifiedStateRoot s.



(** Within a log, every submission satisfying [first] comes before every
    submission satisfying [second]. *)
Definition allBefore (first second : Submission -> bool) (l : list Submission) : Prop :=
  forall i j x y,
    l !! i = Some x -> l !! j = Some y ->
    second x = true -> first y = true -> (j < i)%nat.

Definition storageCommit (x : Submission) : Prop := isCommitStorageSlot x = true.
Definition accountCommit (x : Submission) : Prop := isCommitContractState x = true.
Definition notStorageCommit (x : Submission) : Prop := isCommitStorageSlot x = false.

(** What a computation started in [s] and ended in [s'] has submitted. *)
Definition newSubmissions {E} (s s' : St E) : list Submission :=
  drop (length (sent s)) (sent s').


(** The state a call leaves behind when the world moves to [w'] and the
    submissions [l] are recorded. *)
Definition afterCall {E} (s : St E) (w' : W E) (l : list Submission) : St E :=
  {| world := w'; nextUnverifiedStateRoot := nextUnverifiedStateRoot s;
     sent := sent s ++ l |}.

Definition notAccountCommit (x : Submission) : Prop := isCommitContractState x = false.
Definition neitherCommit (x : Submission) : Prop :=
  isCommitStorageSlot x = false /\ isCommitContractState x = false.

(** [m] submits in two stages: first no account commit, then no storage
    commit. *)
Definition staged (E : Env) {A} (m : M E A) : Prop :=
  forall s, exists u v,
    sent (snd (m s)) = sent s ++ u ++ v /\
    Forall notAccountCommit u /\ Forall notStorageCommit v.

(* ===================================================================== *)
(** ** 6. Concrete collaborators, for running the service *)
(* ===================================================================== *)

(** A library instance: a trie is the list of its nodes, encoders are
    transparent. *)
Definition listLib : Lib :=
  {| Trie := list string;
     makeTrieFromProofs := fun proofs => Ret (concat proofs);
     trie_put := fun t k v => Ret (t ++ [k +:+ "=" +:+ v]);
     createProof := fun t k => Ret t;
     rlp_encode := fun nodes => String.concat "," nodes;
     rlp_encode_hex := fun x => x;
     keccak256 := fun x => "k(" +:+ x +:+ ")";
     toHexString := fun x => x;
     fromHexString := fun x => x;
     toStrippedHexString := fun x => x;
     toBytes32 := fun x => x;
     encodeAccountState := fun a => acc_storageRoot a;
     hashOvmTransaction := fun tx => "h(" +:+ data tx +:+ ")" |}.

(** Collaborators without state: every call has one fixed answer. *)
Definition staticEnv (answer : forall A, Call A -> outcome A) : Env :=
  {| W := unit; perform := fun A c w => (answer A c, w) |}.

Definition startOf (E : Env) (w : W E) (cursor : Z) : St E :=
  {| world := w; nextUnverifiedStateRoot := cursor; sent := [] |}.

Definition header0 : BatchHeader :=
  {| batchIndex := 0; batchRoot := "0xb0"; batchSize := 2; prevTotalElements := 0;
     extraData := "0x" |}.

Definition header1 : BatchHeader :=
  {| batchIndex := 1; batchRoot := "0xb1"; batchSize := 1; prevTotalElements := 2;
     extraData := "0x" |}.

(** Three state roots in two batches; the rollup node disagrees on root 2
    (its block 3). *)
Definition demoHeader (i : Z) : option BatchHeader :=
  if (0 <=? i) && (i <? 2) then Some header0
  else if i =? 2 then Some header1
  else None.

Definition demoRoot1 (i : Z) : string := "0xaa".

Definition demoRoot2 (i : Z) : string := if i =? 3 then "0xbb" else "0xaa".

Definition demoTx : OvmTransaction :=
  {| timestamp := 1; blockNumber := 3; l1QueueOrigin := 0; l1TxOrigin := "0x00";
     entrypoint := "0x42"; gasLimit := 8000000; data := "0xfeed" |}.

Definition demoStateRootProof (i : Z) : StateRootBatchProof :=
  {| stateRoot := demoRoot1 i;
     stateRootBatchHeader := if i <? 2 then header0 else header1;
     stateRootProof := {| index := i; siblings := [] |} |}.

Definition demoTxProof (i : Z) : TransactionBatchProof :=
  {| transaction := demoTx;
     transactionChainElement := "0xe1";
     transactionBatchHeader := header0;
     transactionInclusionProof := {| index := i; siblings := [] |} |}.

Definition slotA : StorageStateProof :=
  {| key := "0x01"; value := "0x07"; proof := ["n3"; "n4"] |}.

Definition accountA : AccountStateProof :=
  {| address := "0xA1"; nonce := 1; balance := 0; codeHash := "0xc1";
     storageRoot := "0x51"; accountProof := ["n1"; "n2"]; storageProof := [slotA] |}.

Definition accountB : AccountStateProof :=
  {| address := "0xB2"; nonce := 0; balance := 5; codeHash := "0xc2";
     storageRoot := "0x52"; accountProof := ["n1"; "n5"]; storageProof := [] |}.

Definition demoDiff : StateDiffProof :=
  {| header := "0x0d"; accountStateProofs := [accountA; accountB] |}.

Definition demoOptions : FraudProverOptions := defaultOptions.

(** The reads of the scanner on the demo chains; everything else fails. *)
Definition scanAnswer (hdr : Z -> option BatchHeader) (r1 r2 : Z -> string)
    (A : Type) (c : Call A) : outcome A :=
  match c in Call T return outcome T with
  | L1_getStateRootBatchHeader i => Ret (hdr i)
  | L1_getStateRoot i => Ret (r1 i)
  | L2_getStateRoot i => Ret (r2 i)
  | _ => Throw "Error: connection refused"
  end.

Definition scanEnv : Env := staticEnv (scanAnswer demoHeader demoRoot1 demoRoot2).

(** Chains that agree everywhere: roots 0 and 1 exist, root 2 does not. *)
Definition agreeingHeader (i : Z) : option BatchHeader :=
  if (0 <=? i) && (i <? 2) then Some header0 else None.

Definition agreeingEnv : Env := staticEnv (scanAnswer agreeingHeader demoRoot1 demoRoot1).

(** A verifier that goes through a whole dispute.  The world records what
    the contracts have seen so far. *)
Record DemoWorld := {
  dw_initialized : bool;
  dw_phase : StateTransitionPhase;
  dw_storageLeft : N;
  dw_accountsLeft : N;
  dw_finalized : bool;
  dw_hasAccount : bool;
  dw_glitches : nat;
}.

Definition demoWorld0 : DemoWorld :=
  {| dw_initialized := false; dw_phase := PRE_EXECUTION; dw_storageLeft := 0;
     dw_accountsLeft := 0; dw_finalized := false; dw_hasAccount := false;
     dw_glitches := 0 |}.

(** The effect of a submission on the demo contracts: [dw_glitches] account
    commits are refused first, as if a peer had just moved the root. *)
Definition demoSubmit (tx : Submission) (w : DemoWorld) : outcome string * DemoWorld :=
  match tx with
  | InitializeFraudVerification _ _ =>
      (Ret "0x01",
       {| dw_initialized := true; dw_phase := PRE_EXECUTION;
          dw_storageLeft := dw_storageLeft w; dw_accountsLeft := dw_accountsLeft w;
          dw_finalized := dw_finalized w; dw_hasAccount := dw_hasAccount w;
          dw_glitches := dw_glitches w |})
  | ApplyTransaction _ _ _ =>
      (Ret "0x02",
       {| dw_initialized := dw_initialized w; dw_phase := POST_EXECUTION;
          dw_storageLeft := 1; dw_accountsLeft := 1;
          dw_finalized := dw_finalized w; dw_hasAccount := dw_hasAccount w;
          dw_glitches := dw_glitches w |})
  | CommitStorageSlot _ _ _ _ _ =>
      (Ret "0x03",
       {| dw_initialized := dw_initialized w; dw_phase := dw_phase w;
          dw_storageLeft := N.pred (dw_storageLeft w);
          dw_accountsLeft := dw_accountsLeft w;
          dw_finalized := dw_finalized w; dw_hasAccount := dw_hasAccount w;
          dw_glitches := dw_glitches w |})
  | CommitContractState _ _ _ _ =>
      match dw_glitches w with
      | S g =>
          (Throw "Error: VM Exception while processing transaction: revert Invalid root hash",
           {| dw_initialized := dw_initialized w; dw_phase := dw_phase w;
              dw_storageLeft := dw_storageLeft w; dw_accountsLeft := dw_accountsLeft w;
              dw_finalized := dw_finalized w; dw_hasAccount := dw_hasAccount w;
              dw_glitches := g |})
      | O =>
          (Ret "0x04",
           {| dw_initialized := dw_initialized w; dw_phase := dw_phase w;
              dw_storageLeft := dw_storageLeft w;
              dw_accountsLeft := N.pred (dw_accountsLeft w);
              dw_finalized := dw_finalized w; dw_hasAccount := dw_hasAccount w;
              dw_glitches := O |})
      end
  | CompleteTransition _ =>
      (Ret "0x05",
       {| dw_initialized := dw_initialized w; dw_phase := COMPLETE;
          dw_storageLeft := dw_storageLeft w; dw_accountsLeft := dw_accountsLeft w;
          dw_finalized := dw_finalized w; dw_hasAccount := dw_hasAccount w;
          dw_glitches := dw_glitches w |})
  | FinalizeFraudVerification _ _ _ =>
      (Ret "0x06",
       {| dw_initialized := dw_initialized w; dw_phase := dw_phase w;
          dw_storageLeft := dw_storageLeft w; dw_accountsLeft := dw_accountsLeft w;
          dw_finalized := true; dw_hasAccount := dw_hasAccount w;
          dw_glitches := dw_glitches w |})
  | _ => (Ret "0x07", w)
  end.

Definition demoPerform (A : Type) (c : Call A) (w : DemoWorld) : outcome A * DemoWorld :=
  match c in Call T return outcome T * DemoWorld with
  | L1_getStateRootBatchHeader i =>
      (Ret (if dw_finalized w then agreeingHeader i else demoHeader i), w)
  | L1_getStateRoot i => (Ret (demoRoot1 i), w)
  | L1_getStateRootBatchProof i => (Ret (demoStateRootProof i), w)
  | L1_getTransactionBatchProof i => (Ret (demoTxProof i), w)
  | L2_getStateRoot i => (Ret (demoRoot2 i), w)
  | L2_getStateDiffProof i => (Ret demoDiff, w)
  | L2_getCode addr blk => (Ret (if String.eqb addr "0xA1" then "0x6001" else "0x"), w)
  | FV_getStateTransitioner _ _ =>
      (Ret (if dw_initialized w then "0x57" else ZERO_ADDRESS), w)
  | ST_phase _ => (Ret (dw_phase w), w)
  | ST_ovmStateManager _ => (Ret "0x53", w)
  | ST_queryAccountCommitted _ => (Ret [], w)
  | ST_queryContractStorageCommitted _ =>
      (Ret (if (dw_storageLeft w =? 0)%N
            then [{| sce_address := "0xa1"; sce_key := "0x01" |}] else []), w)
  | SM_hasAccount _ _ => (Ret (dw_hasAccount w), w)
  | SM_getAccount _ addr =>
      (Ret {| acc_nonce := 2; acc_balance := 0; acc_storageRoot := "0x99";
              acc_codeHash := "0xc1" |}, w)
  | SM_getTotalUncommittedAccounts _ => (Ret (dw_accountsLeft w), w)
  | SM_wasAccountCommitted _ addr => (Ret (dw_accountsLeft w =? 0)%N, w)
  | SM_wasAccountChanged _ addr => (Ret (String.eqb addr "0xA1"), w)
  | SM_getTotalUncommittedContractStorage _ => (Ret (dw_storageLeft w), w)
  | SM_getContractStorage _ _ _ => (Ret "0x0000000000000008", w)
  | SM_wasContractStorageCommitted _ _ _ => (Ret (dw_storageLeft w =? 0)%N, w)
  | SM_wasContractStorageChanged _ _ _ => (Ret true, w)
  | Submit tx => demoSubmit tx w
  | Tx_wait _ => (Ret {| contractAddress := "0xC0" |}, w)
  end.

Definition demoEnv : Env := {| W := DemoWorld; perform := demoPerform |}.

(** A state manager whose counters stay at one although nothing in the
    proof data is left to commit (everything is reported as committed). *)
Definition stuckAnswer (A : Type) (c : Call A) : outcome A :=
  match c in Call T return outcome T with
  | SM_getTotalUncommittedAccounts _ => Ret 1%N
  | SM_getTotalUncommittedContractStorage _ => Ret 1%N
  | ST_queryAccountCommitted _ => Ret []
  | ST_queryContractStorageCommitted _ => Ret []
  | SM_wasAccountCommitted _ _ => Ret true
  | SM_wasAccountChanged _ _ => Ret true
  | SM_wasContractStorageCommitted _ _ _ => Ret true
  | SM_wasContractStorageChanged _ _ _ => Ret true
  | _ => Throw "Error: connection refused"
  end.

Definition stuckEnv : Env := staticEnv stuckAnswer.

(** A state manager that already has every account, a rollup node that
    reports code for every address. *)
Definition provenAnswer (A : Type) (c : Call A) : outcome A :=
  match c in Call T return outcome T with
  | SM_hasAccount _ _ => Ret true
  | L2_getCode _ _ => Ret "0x6001"
  | ST_phase _ => Ret PRE_EXECUTION
  | Submit _ => Ret "0x01"
  | Tx_wait _ => Ret {| contractAddress := "0xC0" |}
  | _ => Throw "Error: connection refused"
  end.

Definition provenEnv : Env := staticEnv provenAnswer.






Definition demoProofData : FraudProofData listLib :=
  Build_FraudProofData listLib demoDiff (demoTxProof 2) (demoStateRootProof 1)
    (demoStateRootProof 2) ["n1"; "n2"; "n1"; "n5"]
    (<["0xB2" := []]> (<["0xA1" := ["n3"; "n4"]]> ∅)).


(* ===================================================================== *)
(** ** 6b. Further code of the service, and the vocabulary of its
       properties *)
(* ===================================================================== *)

(** One of the two connection loops of [_init]:
    [for (let i = 0; i < 10; i++) { try { await detectNetwork(); break }
    catch (err) { if (i < 9) { await sleep(1000) } else { throw new Error(...) } } }].
    [detectNetwork] is the provider's method, a parameter here; [remaining]
    is [10 - i]; the pause between two attempts has no effect on the state.
    The body answers whether the loop was left by [break]. *)
Fixpoint connectLoop (E : Env) (detectNetwork : M E unit) (failure : string)
    (i remaining : nat) : M E unit :=
  match remaining with
  | O => ret E tt
  | S remaining' =>
      bind E
        (catch E
           (bind E detectNetwork (fun _ => ret E true))
           (fun _ => if (i <? 9)%nat then ret E false else throw E failure))
        (fun connected =>
           if connected then ret E tt
           else connectLoop E detectNetwork failure (S i) remaining')
  end.

Definition l1Unreachable : string :=
  "Error: Unable to connect to the L1 network, check that your L1 endpoint is correct.".

Definition l2Unreachable : string :=
  "Error: Unable to connect to the L2 network, check that your L2 endpoint is correct.".

(** The two connection loops at the head of [_init]. *)
Definition _init_connect (E : Env) (detectL1 detectL2 : M E unit) : M E unit :=
  bind E (connectLoop E detectL1 l1Unreachable 0 10)
    (fun _ => connectLoop E detectL2 l2Unreachable 0 10).

(** [k] attempts in a row fail, taking the state from [s] to [s']. *)
Fixpoint failsInARow (E : Env) (detectNetwork : M E unit) (k : nat) (s s' : St E) : Prop :=
  match k with
  | O => s' = s
  | S k' =>
      exists e s1, detectNetwork s = (Throw e, s1) /\
                   failsInARow E detectNetwork k' s1 s'
  end.

Definition isInitialize (x : Submission) : bool :=
  match x with InitializeFraudVerification _ _ => true | _ => false end.

Definition isFinalize (x : Submission) : bool :=
  match x with FinalizeFraudVerification _ _ _ => true | _ => false end.

(** The submissions of the proving steps of PRE_EXECUTION: carrier
    deployments and the two kinds of proofs. *)
Definition isProofStep (x : Submission) : bool :=
  match x with
  | SendTransaction _ _ _ => true
  | ProveContractState _ _ _ _ => true
  | ProveStorageSlot _ _ _ _ => true
  | _ => false
  end.

Definition isCommit (x : Submission) : bool :=
  isCommitStorageSlot x || isCommitContractState x.

(** [l] is empty or is [x] alone. *)
Definition atMostOnly (x : Submission) (l : list Submission) : Prop :=
  l = [] \/ l = [x].

(** [m] submits first submissions satisfying [P] and then a tail
    satisfying [Q]. *)
Definition tailed (E : Env) {A} (P : Submission -> Prop)
    (Q : list Submission -> Prop) (m : M E A) : Prop :=
  forall s, exists u v,
    sent (snd (m s)) = sent s ++ u ++ v /\ Forall P u /\ Q v.

(** [m] submits a prefix of [expected], and all of it when it returns. *)
Definition follows (E : Env) (expected : list Submission) (m : M E unit) : Prop :=
  forall s, exists l,
    sent (snd (m s)) = sent s ++ l /\
    l `prefix_of` expected /\
    (fst (m s) = Ret tt -> l = expected).

(** What [_proveStorageSlots] is to submit for the slots of one account. *)
Definition slotProofsOf (L : Lib) (st addr : string) (slots : list StorageStateProof)
    : list Submission :=
  map (fun slot => ProveStorageSlot st addr (toBytes32 L (key slot))
                     (rlp_encode L (proof slot)))
      slots.

(** What [_proveContractStorageStates] is to submit: every slot of every
    account, in the order of the proof data. *)
Definition storageProofsOf (L : Lib) (st : string) (accounts : list AccountStateProof)
    : list Submission :=
  flat_map (fun a => slotProofsOf L st (address a) (storageProof a)) accounts.


Definition proofStep (x : Submission) : Prop := isProofStep x = true.
Definition commitStep (x : Submission) : Prop := isCommit x = true.

(** The accounts proved by a list of submissions: address and encoded
    proof of every [proveContractState], in order. *)
Definition provenAccounts (l : list Submission) : list (string * string) :=
  flat_map (fun x => match x with
                     | ProveContractState _ addr _ encodedProof => [(addr, encodedProof)]
                     | _ => []
                     end) l.

(** What [_proveAccountStates] is to prove: every account of the proof data,
    in order. *)
Definition accountProofsOf (L : Lib) (accounts : list AccountStateProof)
    : list (string * string) :=
  map (fun a => (address a, rlp_encode L (accountProof a))) accounts.

(** A [proveContractState] on transitioner [st], or a contract creation with
    gas limit [gas]. *)
Definition proofOrDeployment (st : string) (gas : Z) (x : Submission) : Prop :=
  match x with
  | ProveContractState st' _ _ _ => st' = st
  | SendTransaction None _ gas' => gas' = gas
  | _ => False
  end.

(** A wallet without funds and a transitioner on which every account and
    slot has been proven by a peer. *)
Definition brokeAnswer (A : Type) (c : Call A) : outcome A :=
  match c in Call T return outcome T with
  | SM_hasAccount _ _ => Ret false
  | L2_getCode addr _ => Ret (if String.eqb addr "0xA1" then "0x6001" else "0x")
  | Submit (SendTransaction _ _ _) =>
      Throw "Error: insufficient funds for gas * price + value"
  | Submit (ProveContractState _ _ _ _) =>
      Throw "Error: VM Exception while processing transaction: revert Account state has already been proven."
  | Submit (ProveStorageSlot _ _ _ _) =>
      Throw "Error: VM Exception while processing transaction: revert Storage slot has already been proven."
  | _ => Throw "Error: connection refused"
  end.

Definition brokeEnv : Env := staticEnv brokeAnswer.

(** A contract creation with gas limit [gas]. *)
Definition deploymentWith (gas : Z) (x : Submission) : Prop :=
  match x with
  | SendTransaction None _ gas' => gas' = gas
  | _ => False
  end.

(** [m] submits proofs and deployments only; the accounts it proves are a
    prefix of [expected], and all of it when [m] returns. *)
Definition proves (E : Env) (st : string) (gas : Z) (expected : list (string * string))
    (m : M E unit) : Prop :=
  forall s, exists l,
    sent (snd (m s)) = sent s ++ l /\
    Forall (proofOrDeployment st gas) l /\
    provenAccounts l `prefix_of` expected /\
    (fst (m s) = Ret tt -> provenAccounts l = expected).

(** Neither the opening nor the closing submission of a dispute. *)
Definition middleStep (x : Submission) : Prop :=
  isInitialize x = false /\ isFinalize x = false.

(** A [commitContractState] on [st] with gas limit [gas] for an account of
    [accounts]. *)
Definition accountCommitOf (st : string) (gas : Z) (accounts : list AccountStateProof)
    (x : Submission) : Prop :=
  exists a inclusionProof,
    a ∈ accounts /\ x = CommitContractState st (address a) inclusionProof gas.

(** A [commitStorageSlot] on [st] with gas limit [gas] for a slot of an
    account of [accounts]. *)
Definition slotCommitOf (st : string) (gas : Z) (accounts : list AccountStateProof)
    (x : Submission) : Prop :=
  exists a slot inclusionProof,
    a ∈ accounts /\ slot ∈ storageProof a /\
    x = CommitStorageSlot st (address a) (key slot) inclusionProof gas.



(** An event with its address in lower case. *)
Definition lowerEvent (event : AccountCommittedEvent) : AccountCommittedEvent :=
  {| ace_address := toLowerCase (ace_address event) |}.

(** A provider that refuses the first [n] connection attempts, [n] being
    the state of the world. *)
Definition flakyEnv : Env :=
  {| W := nat; perform := fun A c w => (Throw "Error: connection refused", w) |}.

Definition flakyDetect : M flakyEnv unit :=
  fun s =>
    match world s with
    | S n =>
        (Throw "Error: could not detect network",
         {| world := n : W flakyEnv;
            nextUnverifiedStateRoot := nextUnverifiedStateRoot s;
            sent := sent s |})
    | O => (Ret tt, s)
    end.


(** The addresses for which a list of submissions commits a storage slot,
    in order. *)
Definition slotCommitAddresses (l : list Submission) : list string :=
  flat_map (fun x => match x with
                     | CommitStorageSlot _ addr _ _ _ => [addr]
                     | _ => []
                     end) l.
(* ===================================================================== *)
(** ** 7. General lemmas *)
(* ===================================================================== *)

Lemma withCursor_same {E} (s : St E) : withCursor s (nextUnverifiedStateRoot s) = s.
Proof. destruct s; reflexivity. Qed.

Lemma call_answers E {A} (c : Call A) (a : A) (s : St E) :
  answers E c a -> logged c = [] -> call E c s = (Ret a, s).
Proof.
  intros Hc Hl. unfold call. rewrite Hc, Hl, app_nil_r. destruct s; reflexivity.
Qed.

Lemma call_sent E {A} (c : Call A) (s : St E) :
  sent (snd (call E c s)) = sent s ++ logged c.
Proof. unfold call. destruct (perform E c (world s)); reflexivity. Qed.

Lemma call_cursor E {A} (c : Call A) (s : St E) :
  nextUnverifiedStateRoot (snd (call E c s)) = nextUnverifiedStateRoot s.
Proof. unfold call. destruct (perform E c (world s)); reflexivity. Qed.

Section Scanner.

Context (E : Env) (options : FraudProverOptions).

Context (hdr : Z -> option BatchHeader) (root1 root2 : Z -> string).

Abbreviation quiescent := (quiescent E hdr root1 root2).
Abbreviation agrees := (agrees options hdr root1 root2).

Lemma scan_unfold (Hq : quiescent) fuel (s : St E) :
  _findNextFraudulentStateRoot E options (S fuel) s =
  let c := nextUnverifiedStateRoot s in
  match hdr c with
  | None => (Ret None, s)
  | Some _ =>
      if negb (String.eqb (root1 c) (root2 (c + l2BlockOffset options)))
      then (Ret (Some c), s)
      else _findNextFraudulentStateRoot E options fuel (withCursor s (c + 1))
  end.
Proof.
  destruct Hq as (Hh & H1 & H2).
  cbn [_findNextFraudulentStateRoot]. unfold bind at 1. unfold getCursor at 1.
  unfold bind at 1. rewrite (call_answers E _ _ s (Hh _) eq_refl).
  cbv zeta. destruct (hdr (nextUnverifiedStateRoot s)); [|reflexivity].
  unfold bind at 1. unfold getCursor at 1.
  unfold bind at 1. rewrite (call_answers E _ _ s (H1 _) eq_refl).
  unfold bind at 1. unfold getCursor at 1.
  unfold bind at 1. rewrite (call_answers E _ _ s (H2 _) eq_refl).
  destruct (negb _); reflexivity.
Qed.

Lemma scan_skip (Hq : quiescent) (k : nat) : forall fuel (s : St E),
  (forall j, nextUnverifiedStateRoot s <= j < nextUnverifiedStateRoot s + Z.of_nat k ->
             agrees j) ->
  _findNextFraudulentStateRoot E options (k + fuel) s =
  _findNextFraudulentStateRoot E options fuel
    (withCursor s (nextUnverifiedStateRoot s + Z.of_nat k)).
Proof.
  induction k as [|k IH]; intros fuel s Hag.
  - cbn [Z.of_nat Nat.add]. rewrite Z.add_0_r, withCursor_same. reflexivity.
  - change (S k + fuel)%nat with (S (k + fuel)). rewrite (scan_unfold Hq). cbv zeta.
    destruct (Hag (nextUnverifiedStateRoot s)) as [Hh Hr]; [lia|].
    destruct (hdr (nextUnverifiedStateRoot s)); [|congruence].
    rewrite Hr, String.eqb_refl. cbn [negb].
    rewrite IH.
    + cbn [withCursor nextUnverifiedStateRoot]. unfold withCursor. cbn.
      do 2 f_equal. lia.
    + cbn [withCursor nextUnverifiedStateRoot]. intros j Hj. apply Hag. lia.
Qed.

Lemma scan_selected (Hq : quiescent) fuel : forall (s s' : St E) i,
  _findNextFraudulentStateRoot E options fuel s = (Ret (Some i), s') ->
  nextUnverifiedStateRoot s <= i /\ hdr i <> None /\
  root1 i <> root2 (i + l2BlockOffset options) /\
  s' = withCursor s i.
Proof.
  induction fuel as [|fuel IH]; intros s s' i Hrun.
  - discriminate.
  - rewrite (scan_unfold Hq) in Hrun. cbv zeta in Hrun.
    destruct (hdr (nextUnverifiedStateRoot s)) eqn:Hh; [|discriminate].
    destruct (String.eqb _ _) eqn:Heq; cbn [negb] in Hrun.
    + apply IH in Hrun. cbn [withCursor nextUnverifiedStateRoot] in Hrun.
      destruct Hrun as (Hle & Hi & Hne & ->). repeat split; try assumption. lia.
    + inversion Hrun; subst. rewrite withCursor_same.
      repeat split; try lia; try congruence.
      apply String.eqb_neq. exact Heq.
Qed.

End Scanner.

(** *** The submission log only grows, and by what a computation submits *)

Section Frames.

Context (E : Env).

Abbreviation emits := (emits E).
Abbreviation keepsCursor := (keepsCursor E).

Lemma emits_nothing {A} (P : Submission -> Prop) (m : M E A) :
  (forall s, sent (snd (m s)) = sent s) -> emits P m.
Proof. intros H s. exists []. rewrite app_nil_r. split; [apply H | constructor]. Qed.

Lemma emits_ret {A} P (a : A) : emits P (ret E a).
Proof. apply emits_nothing. reflexivity. Qed.

Lemma emits_throw {A} P e : emits P (@throw E A e).
Proof. apply emits_nothing. reflexivity. Qed.

Lemma emits_outOfFuel {A} P : emits P (@outOfFuel E A).
Proof. apply emits_nothing. reflexivity. Qed.

Lemma emits_lift {A} P (o : outcome A) : emits P (lift E o).
Proof. apply emits_nothing. reflexivity. Qed.

Lemma emits_getCursor P : emits P (getCursor E).
Proof. apply emits_nothing. reflexivity. Qed.

Lemma emits_setCursor P z : emits P (setCursor E z).
Proof. apply emits_nothing. reflexivity. Qed.

Lemma emits_call {A} (P : Submission -> Prop) (c : Call A) :
  Forall P (logged c) -> emits P (call E c).
Proof. intros H s. exists (logged c). split; [apply call_sent | exact H]. Qed.

Lemma emits_bind {A B} P (m : M E A) (k : A -> M E B) :
  emits P m -> (forall a, emits P (k a)) -> emits P (bind E m k).
Proof.
  intros Hm Hk s. unfold bind. destruct (Hm s) as (l1 & E1 & F1).
  destruct (m s) as [[a| e |] s1]; cbn [snd] in *.
  - destruct (Hk a s1) as (l2 & E2 & F2). exists (l1 ++ l2).
    rewrite E2, E1, app_assoc. split; [reflexivity | apply Forall_app; auto].
  - exists l1; auto.
  - exists l1; auto.
Qed.

Lemma emits_catch {A} P (m : M E A) (h : string -> M E A) :
  emits P m -> (forall e, emits P (h e)) -> emits P (catch E m h).
Proof.
  intros Hm Hh s. unfold catch. destruct (Hm s) as (l1 & E1 & F1).
  destruct (m s) as [[a| e |] s1]; cbn [snd] in *.
  - exists l1; auto.
  - destruct (Hh e s1) as (l2 & E2 & F2). exists (l1 ++ l2).
    rewrite E2, E1, app_assoc. split; [reflexivity | apply Forall_app; auto].
  - exists l1; auto.
Qed.

Lemma emits_weaken {A} (P Q : Submission -> Prop) (m : M E A) :
  (forall x, P x -> Q x) -> emits P m -> emits Q m.
Proof.
  intros HPQ Hm s. destruct (Hm s) as (l & El & Fl). exists l. split; [exact El|].
  eapply Forall_impl; eauto.
Qed.

Lemma emits_none_sent {A} (m : M E A) :
  emits (fun _ => False) m -> forall s, sent (snd (m s)) = sent s.
Proof.
  intros Hm s. destruct (Hm s) as (l & El & Fl). destruct l as [|x l].
  - rewrite El. apply app_nil_r.
  - inversion Fl; contradiction.
Qed.

(** Sequencing in two stages: what [m] submits comes first, and [k] submits
    something only after [m] has returned normally. *)
Lemma emits_then {A B} (P Q : Submission -> Prop) (m : M E A) (k : A -> M E B) :
  emits P m -> (forall a, emits Q (k a)) ->
  forall s, exists l1 l2,
    sent (snd (bind E m k s)) = sent s ++ l1 ++ l2 /\
    Forall P l1 /\ Forall Q l2 /\
    sent (snd (m s)) = sent s ++ l1 /\
    (l2 <> [] -> exists a, fst (m s) = Ret a).
Proof.
  intros Hm Hk s. unfold bind. destruct (Hm s) as (l1 & E1 & F1).
  destruct (m s) as [[a| e |] s1] eqn:Hms; cbn [snd fst] in *.
  - destruct (Hk a s1) as (l2 & E2 & F2). exists l1, l2.
    rewrite E2, E1, app_assoc. repeat split; eauto.
  - exists l1, []. rewrite app_nil_r. repeat split; auto. congruence.
  - exists l1, []. rewrite app_nil_r. repeat split; auto. congruence.
Qed.

Lemma keeps_ret {A} (a : A) : keepsCursor (ret E a).
Proof. intros s; reflexivity. Qed.

Lemma keeps_throw {A} e : keepsCursor (@throw E A e).
Proof. intros s; reflexivity. Qed.

Lemma keeps_outOfFuel {A} : keepsCursor (@outOfFuel E A).
Proof. intros s; reflexivity. Qed.

Lemma keeps_lift {A} (o : outcome A) : keepsCursor (lift E o).
Proof. intros s; reflexivity. Qed.

Lemma keeps_call {A} (c : Call A) : keepsCursor (call E c).
Proof. intros s. apply call_cursor. Qed.

Lemma keeps_bind {A B} (m : M E A) (k : A -> M E B) :
  keepsCursor m -> (forall a, keepsCursor (k a)) -> keepsCursor (bind E m k).
Proof.
  intros Hm Hk s. unfold bind. specialize (Hm s).
  destruct (m s) as [[a| e |] s1]; cbn [snd] in *; auto.
  rewrite Hk. exact Hm.
Qed.

Lemma keeps_catch {A} (m : M E A) (h : string -> M E A) :
  keepsCursor m -> (forall e, keepsCursor (h e)) -> keepsCursor (catch E m h).
Proof.
  intros Hm Hh s. unfold catch. specialize (Hm s).
  destruct (m s) as [[a| e |] s1]; cbn [snd] in *; auto.
  rewrite Hh. exact Hm.
Qed.

End Frames.

Create HintDb emits.
Create HintDb keeps.

#[local] Hint Resolve emits_ret emits_throw emits_outOfFuel emits_lift emits_getCursor
  emits_setCursor : emits.
#[local] Hint Resolve keeps_ret keeps_throw keeps_outOfFuel keeps_lift keeps_call : keeps.

(** Decomposes an [emits] goal along the structure of the computation. *)
Ltac emits_step :=
  match goal with
  | |- emits _ _ (bind _ _ _) => apply emits_bind; [| intros ?]
  | |- emits _ _ (catch _ _ _) => apply emits_catch; [| intros ?]
  | |- emits _ _ (call _ _) => apply emits_call; cbn [logged]; repeat constructor
  | |- emits _ _ (if ?b then _ else _) => destruct b
  | |- emits _ _ (match ?x with _ => _ end) => destruct x
  | |- emits _ _ _ => solve [auto with emits]
  end.

Ltac emits_auto := repeat emits_step; auto with emits.

Ltac keeps_step :=
  match goal with
  | |- keepsCursor _ (bind _ _ _) => apply keeps_bind; [| intros ?]
  | |- keepsCursor _ (catch _ _ _) => apply keeps_catch; [| intros ?]
  | |- keepsCursor _ (if ?b then _ else _) => destruct b
  | |- keepsCursor _ (match ?x with _ => _ end) => destruct x
  | |- keepsCursor _ _ => solve [auto with keeps]
  end.

Ltac keeps_auto := repeat keeps_step; auto with keeps.

(** *** What each method submits, and that only [_start] moves the cursor *)

Section ServiceFrames.

Context (E : Env) (L : Lib) (options : FraudProverOptions).

Lemma scanner_emits P fuel : emits E P (_findNextFraudulentStateRoot E options fuel).
Proof.
  induction fuel as [|fuel IH]; cbn [_findNextFraudulentStateRoot]; emits_auto.
Qed.


(** Whatever the chains answer, a selected index is one where the scanner
    has just read a header and two differing roots. *)
Lemma scanner_selected_reads fuel : forall (s s' : St E) i,
  _findNextFraudulentStateRoot E options fuel s = (Ret (Some i), s') ->
  exists w1 w2 w3 h r1 r2,
    perform E (L1_getStateRootBatchHeader i) w1 = (Ret (Some h), w2) /\
    perform E (L1_getStateRoot i) w2 = (Ret r1, w3) /\
    perform E (L2_getStateRoot (i + l2BlockOffset options)) w3 = (Ret r2, world s') /\
    r1 <> r2.
Proof.
  induction fuel as [|fuel IH]; intros s s' i; cbn [_findNextFraudulentStateRoot].
  - discriminate.
  - unfold bind, getCursor, setCursor, ret, call.
    destruct (perform E (L1_getStateRootBatchHeader _) _) as [[[h|]| e |] w1] eqn:Hh;
      try discriminate.
    cbn [world nextUnverifiedStateRoot sent].
    destruct (perform E (L1_getStateRoot _) _) as [[r1| e |] w2] eqn:H1; try discriminate.
    cbn [world nextUnverifiedStateRoot sent].
    destruct (perform E (L2_getStateRoot _) _) as [[r2| e |] w3] eqn:H2; try discriminate.
    cbn [world nextUnverifiedStateRoot sent].
    destruct (String.eqb r1 r2) eqn:Heq; cbn [negb].
    + apply IH.
    + intros H; inversion H; subst; clear H. cbn [world].
      exists (world s), w1, w2, h, r1, r2. repeat split; try assumption.
      apply String.eqb_neq. exact Heq.
Qed.

Lemma makeAccountTries_from_keeps accounts : forall tries,
  keepsCursor E (_makeAccountTries_from E L accounts tries).
Proof.
  induction accounts as [|a rest IH]; intros tries; cbn [_makeAccountTries_from];
    keeps_auto.
Qed.
Hint Resolve makeAccountTries_from_keeps : keeps.

Lemma getFraudProofData_keeps i : keepsCursor E (_getFraudProofData E L options i).
Proof.
  unfold _getFraudProofData, _makeStateTrie, _makeAccountTries; keeps_auto.
Qed.

Lemma deployContractCode_keeps code : keepsCursor E (_deployContractCode E L options code).
Proof. unfold _deployContractCode; keeps_auto. Qed.
Hint Resolve deployContractCode_keeps : keeps.

Lemma proveAccountState_keeps st sm a i :
  keepsCursor E (_proveAccountState E L options st sm a i).
Proof. unfold _proveAccountState; keeps_auto. Qed.
Hint Resolve proveAccountState_keeps : keeps.

Lemma proveAccountStates_keeps st sm accounts i :
  keepsCursor E (_proveAccountStates E L options st sm accounts i).
Proof.
  induction accounts as [|a rest IH]; cbn [_proveAccountStates]; keeps_auto.
Qed.

Lemma proveStorageSlots_keeps st addr slots :
  keepsCursor E (_proveStorageSlots E L st addr slots).
Proof.
  induction slots as [|sp rest IH]; cbn [_proveStorageSlots]; keeps_auto.
Qed.
Hint Resolve proveStorageSlots_keeps : keeps.

Lemma proveContractStorageStates_keeps st accounts :
  keepsCursor E (_proveContractStorageStates E L st accounts).
Proof.
  induction accounts as [|a rest IH]; cbn [_proveContractStorageStates]; keeps_auto.
Qed.

Lemma putCommittedAccounts_keeps sm accounts : forall trie,
  keepsCursor E (putCommittedAccounts E L sm accounts trie).
Proof.
  induction accounts as [|a rest IH]; intros trie; cbn [putCommittedAccounts];
    keeps_auto.
Qed.
Hint Resolve putCommittedAccounts_keeps : keeps.

Lemma findNextUncommittedAccount_keeps sm accounts :
  keepsCursor E (findNextUncommittedAccount E sm accounts).
Proof.
  induction accounts as [|a rest IH]; cbn [findNextUncommittedAccount]; keeps_auto.
Qed.
Hint Resolve findNextUncommittedAccount_keeps : keeps.

Lemma updateAccountStates_body_keeps st sm accounts trie :
  keepsCursor E (_updateAccountStates_body E L options st sm accounts trie).
Proof.
  unfold _updateAccountStates_body, tryCommitContractState; keeps_auto.
Qed.
Hint Resolve updateAccountStates_body_keeps : keeps.

Lemma updateAccountStates_keeps fuel st sm accounts : forall trie,
  keepsCursor E (_updateAccountStates E L options fuel st sm accounts trie).
Proof.
  induction fuel as [|fuel IH]; intros trie; cbn [_updateAccountStates]; keeps_auto.
Qed.

Lemma putCommittedSlots_keeps sm addr slots : forall tries,
  keepsCursor E (putCommittedSlots E L sm addr slots tries).
Proof.
  induction slots as [|sp rest IH]; intros tries; cbn [putCommittedSlots];
    unfold trieOf; keeps_auto.
Qed.
Hint Resolve putCommittedSlots_keeps : keeps.

Lemma syncStorageTries_keeps sm events accounts : forall tries,
  keepsCursor E (syncStorageTries E L sm events accounts tries).
Proof.
  induction accounts as [|a rest IH]; intros tries; cbn [syncStorageTries];
    keeps_auto.
Qed.
Hint Resolve syncStorageTries_keeps : keeps.

Lemma findNextUncommittedSlot_keeps sm addr slots :
  keepsCursor E (findNextUncommittedSlot E sm addr slots).
Proof.
  induction slots as [|sp rest IH]; cbn [findNextUncommittedSlot]; keeps_auto.
Qed.
Hint Resolve findNextUncommittedSlot_keeps : keeps.

Lemma commitStorageSlots_keeps st sm accounts tries :
  keepsCursor E (commitStorageSlots E L options st sm accounts tries).
Proof.
  induction accounts as [|a rest IH]; cbn [commitStorageSlots];
    unfold tryCommitStorageSlot; keeps_auto.
Qed.
Hint Resolve commitStorageSlots_keeps : keeps.

Lemma updateContractStorageStates_keeps fuel st sm accounts : forall tries,
  keepsCursor E (_updateContractStorageStates E L options fuel st sm accounts tries).
Proof.
  induction fuel as [|fuel IH]; intros tries; cbn [_updateContractStorageStates];
    keeps_auto.
Qed.

Lemma start_dispute_keeps fuel i : keepsCursor E (_start_dispute E L options fuel i).
Proof.
  unfold _start_dispute, _initializeFraudVerification, _getFraudProofContracts,
    _getStateTransitioner, _start_preExecution, _start_postExecution, _start_complete,
    _finalizeFraudVerification, phaseCompletedByOther.
  repeat keeps_step;
    auto using getFraudProofData_keeps, proveAccountStates_keeps,
      proveContractStorageStates_keeps, updateContractStorageStates_keeps,
      updateAccountStates_keeps.
Qed.

End ServiceFrames.

(** *** The two commit loops *)

Section CommitLoops.

Context (E : Env) (L : Lib) (options : FraudProverOptions).

Lemma putCommittedSlots_emits P sm addr slots : forall tries,
  emits E P (putCommittedSlots E L sm addr slots tries).
Proof.
  induction slots as [|sp rest IH]; intros tries; cbn [putCommittedSlots];
    unfold trieOf; emits_auto.
Qed.
Hint Resolve putCommittedSlots_emits : emits.

Lemma syncStorageTries_emits P sm events accounts : forall tries,
  emits E P (syncStorageTries E L sm events accounts tries).
Proof.
  induction accounts as [|a rest IH]; intros tries; cbn [syncStorageTries]; emits_auto.
Qed.
Hint Resolve syncStorageTries_emits : emits.

Lemma findNextUncommittedSlot_emits P sm addr slots :
  emits E P (findNextUncommittedSlot E sm addr slots).
Proof.
  induction slots as [|sp rest IH]; cbn [findNextUncommittedSlot]; emits_auto.
Qed.
Hint Resolve findNextUncommittedSlot_emits : emits.

Lemma commitStorageSlots_emits st sm accounts tries :
  emits E storageCommit (commitStorageSlots E L options st sm accounts tries).
Proof.
  induction accounts as [|a rest IH]; cbn [commitStorageSlots];
    unfold tryCommitStorageSlot; emits_auto.
Qed.
Hint Resolve commitStorageSlots_emits : emits.

Lemma updateContractStorageStates_emits fuel st sm accounts : forall tries,
  emits E storageCommit
    (_updateContractStorageStates E L options fuel st sm accounts tries).
Proof.
  induction fuel as [|fuel IH]; intros tries; cbn [_updateContractStorageStates];
    emits_auto.
Qed.

Lemma putCommittedAccounts_emits P sm accounts : forall trie,
  emits E P (putCommittedAccounts E L sm accounts trie).
Proof.
  induction accounts as [|a rest IH]; intros trie; cbn [putCommittedAccounts];
    emits_auto.
Qed.
Hint Resolve putCommittedAccounts_emits : emits.

Lemma findNextUncommittedAccount_emits P sm accounts :
  emits E P (findNextUncommittedAccount E sm accounts).
Proof.
  induction accounts as [|a rest IH]; cbn [findNextUncommittedAccount]; emits_auto.
Qed.
Hint Resolve findNextUncommittedAccount_emits : emits.

Lemma updateAccountStates_body_emits st sm accounts trie :
  emits E accountCommit (_updateAccountStates_body E L options st sm accounts trie).
Proof.
  unfold _updateAccountStates_body, tryCommitContractState; emits_auto.
Qed.
Hint Resolve updateAccountStates_body_emits : emits.

Lemma updateAccountStates_emits fuel st sm accounts : forall trie,
  emits E accountCommit (_updateAccountStates E L options fuel st sm accounts trie).
Proof.
  induction fuel as [|fuel IH]; intros trie; cbn [_updateAccountStates]; emits_auto.
Qed.

(** The storage loop returns only from its loop test, on a counter of zero. *)
Lemma updateContractStorageStates_done fuel st sm accounts : forall tries (s s' : St E),
  _updateContractStorageStates E L options fuel st sm accounts tries s = (Ret tt, s') ->
  exists w,
    perform E (SM_getTotalUncommittedContractStorage sm) w = (Ret 0%N, world s').
Proof.
  induction fuel as [|fuel IH]; intros tries s s'; cbn [_updateContractStorageStates].
  - discriminate.
  - unfold bind at 1. unfold call at 1.
    destruct (perform E (SM_getTotalUncommittedContractStorage sm) (world s))
      as [[n| e |] w1] eqn:Hn; try discriminate.
    destruct (0 <? n)%N eqn:Hpos.
    + unfold bind at 1.
      destruct (call E (ST_queryContractStorageCommitted st) _) as [[ev| e |] s1];
        try discriminate.
      unfold bind at 1.
      destruct (syncStorageTries E L sm ev accounts tries s1) as [[tr| e |] s2];
        try discriminate.
      unfold bind at 1.
      destruct (commitStorageSlots E L options st sm accounts tr s2) as [[u| e |] s3];
        try discriminate.
      apply IH.
    + unfold ret. intros H; inversion H; subst; cbn [world].
      exists (world s). rewrite Hn. apply N.ltb_ge in Hpos.
      replace n with 0%N by lia. reflexivity.
Qed.

Lemma catch_sent {A} (m : M E A) (h : string -> M E A) (s : St E) :
  (forall e s', sent (snd (h e s')) = sent s') ->
  sent (snd (catch E m h s)) = sent (snd (m s)).
Proof.
  intros Hh. unfold catch. destruct (m s) as [[a| e |] s1]; cbn [snd]; auto.
Qed.

Lemma phaseCompletedByOther_sent e (s : St E) :
  sent (snd (phaseCompletedByOther E e s)) = sent s.
Proof. unfold phaseCompletedByOther. destruct (includes _ _); reflexivity. Qed.

Lemma staged_allBefore (l1 l2 : list Submission) :
  Forall notAccountCommit l1 -> Forall notStorageCommit l2 ->
  allBefore isCommitStorageSlot isCommitContractState (l1 ++ l2).
Proof.
  intros F1 F2 i j x y Hi Hj Hx Hy.
  assert (Hj' : (j < length l1)%nat).
  { destruct (Nat.lt_ge_cases j (length l1)) as [|Hge]; [assumption|].
    rewrite lookup_app_r in Hj by exact Hge.
    rewrite Forall_forall in F2. apply list_elem_of_lookup_2, F2 in Hj.
    unfold notStorageCommit in Hj. congruence. }
  assert (Hi' : (length l1 <= i)%nat).
  { destruct (Nat.lt_ge_cases i (length l1)) as [Hlt|]; [|assumption].
    rewrite lookup_app_l in Hi by exact Hlt.
    rewrite Forall_forall in F1. apply list_elem_of_lookup_2, F1 in Hi.
    unfold notAccountCommit in Hi. congruence. }
  lia.
Qed.

Lemma storageCommit_notAccount x : storageCommit x -> notAccountCommit x.
Proof. unfold storageCommit, notAccountCommit. destruct x; cbn; congruence. Qed.

End CommitLoops.

(** *** The POST_EXECUTION block, in two stages *)

Section PostExecution.

Context (E : Env) (L : Lib) (options : FraudProverOptions).

Lemma accountCommit_notStorage x : accountCommit x -> notStorageCommit x.
Proof. unfold accountCommit, notStorageCommit. destruct x; cbn; congruence. Qed.

Lemma afterStorage_emits fuel st sm accounts trie :
  emits E notStorageCommit
    (bind E (_updateAccountStates E L options fuel st sm accounts trie)
       (fun _ => bind E (call E (Submit (CompleteTransition st))) (fun _ => ret E tt))).
Proof.
  apply emits_bind.
  - eapply emits_weaken; [apply accountCommit_notStorage | apply updateAccountStates_emits].
  - intros _. emits_auto.
Qed.

Lemma postExecution_staged fuel st sm (p : FraudProofData L) (s : St E) :
  exists l1 l2,
    sent (snd (_start_postExecution E L options fuel st sm p s)) = sent s ++ l1 ++ l2 /\
    Forall storageCommit l1 /\ Forall notStorageCommit l2 /\
    (l2 <> [] ->
     exists s1 s2 w,
       _updateContractStorageStates E L options fuel st sm
         (accountStateProofs (stateDiffProof p)) (storageTries p) s1 = (Ret tt, s2) /\
       perform E (SM_getTotalUncommittedContractStorage sm) w = (Ret 0%N, world s2) /\
       sent s2 = sent s ++ l1).
Proof.
  unfold _start_postExecution. unfold bind at 1.
  pose proof (call_sent E (ST_phase st) s) as Hph. cbn [logged] in Hph.
  rewrite app_nil_r in Hph.
  destruct (call E (ST_phase st) s) as [[ph| e |] s1]; cbn [snd] in Hph.
  2,3: exists [], []; cbn [snd]; rewrite Hph, !app_nil_r;
       repeat split; auto; congruence.
  destruct (phase_eqb ph POST_EXECUTION).
  2: { exists [], []. cbn [ret snd]. rewrite Hph, !app_nil_r.
       repeat split; auto; congruence. }
  rewrite catch_sent by apply phaseCompletedByOther_sent.
  destruct (emits_then E storageCommit notStorageCommit
              (_updateContractStorageStates E L options fuel st sm
                 (accountStateProofs (stateDiffProof p)) (storageTries p))
              (fun _ => bind E (_updateAccountStates E L options fuel st sm
                                  (accountStateProofs (stateDiffProof p)) (stateTrie p))
                          (fun _ => bind E (call E (Submit (CompleteTransition st)))
                                      (fun _ => ret E tt)))
              (updateContractStorageStates_emits E L options fuel st sm _ _)
              (fun _ => afterStorage_emits fuel st sm _ _) s1)
    as (l1 & l2 & Hsent & F1 & F2 & Hm & Hret).
  exists l1, l2. rewrite Hsent, Hph. repeat split; auto.
  intros Hne. destruct (Hret Hne) as ([] & Hfst).
  destruct (_updateContractStorageStates E L options fuel st sm
              (accountStateProofs (stateDiffProof p)) (storageTries p) s1)
    as [r s2] eqn:Hrun.
  cbn [fst snd] in Hfst, Hm. subst r.
  destruct (updateContractStorageStates_done E L options _ _ _ _ _ _ _ Hrun) as (w & Hw).
  exists s1, s2, w. rewrite Hm, Hph. auto.
Qed.

End PostExecution.

Lemma newSubmissions_app {E} (s s' : St E) l :
  sent s' = sent s ++ l -> newSubmissions s s' = l.
Proof. intros H. unfold newSubmissions. rewrite H. apply drop_app_length. Qed.

(** One poll whose scanner selects [i], in terms of the dispute it runs. *)
Lemma start_iteration_selected (E : Env) (L : Lib) (options : FraudProverOptions)
    (fuel : nat) (s s1 : St E) (i : Z) :
  _findNextFraudulentStateRoot E options fuel s = (Ret (Some i), s1) ->
  _start_iteration E L options fuel s =
  match _start_dispute E L options fuel i s1 with
  | (Ret p, s2) =>
      match toNumber (prevTotalElements (stateRootBatchHeader (preStateRootProof p))) with
      | Ret n => (Ret tt, withCursor s2 n)
      | Throw _ => (Ret tt, s2)
      | OutOfFuel => (OutOfFuel, s2)
      end
  | (Throw e, s2) => (Ret tt, s2)
  | (OutOfFuel, s2) => (OutOfFuel, s2)
  end.
Proof.
  intros Hscan. unfold _start_iteration, _start_try, catch, bind. rewrite Hscan.
  destruct (_start_dispute E L options fuel i s1) as [[p| e |] s2]; try reflexivity.
  unfold lift. destruct (toNumber _); reflexivity.
Qed.

(** *** Strings *)



(** *** The witness assembler *)




(** *** A whole dispute, in two stages *)

Section Dispute.

Context (E : Env) (L : Lib) (options : FraudProverOptions).

Lemma neither_notAccount x : neitherCommit x -> notAccountCommit x.
Proof. intros [_ H]; exact H. Qed.

Lemma neither_notStorage x : neitherCommit x -> notStorageCommit x.
Proof. intros [H _]; exact H. Qed.

Lemma staged_after {A B} (m : M E A) (k : A -> M E B) :
  emits E neitherCommit m -> (forall a, staged E (k a)) -> staged E (bind E m k).
Proof.
  intros Hm Hk s. unfold bind. destruct (Hm s) as (l & El & Fl).
  assert (Fl' : Forall notAccountCommit l)
    by (eapply Forall_impl; [exact Fl | apply neither_notAccount]).
  destruct (m s) as [[a| e |] s1]; cbn [snd] in *.
  - destruct (Hk a s1) as (u & v & Euv & Fu & Fv). exists (l ++ u), v.
    rewrite Euv, El, <- !app_assoc. repeat split; auto. apply Forall_app; auto.
  - exists l, []. rewrite app_nil_r. repeat split; auto.
  - exists l, []. rewrite app_nil_r. repeat split; auto.
Qed.

Lemma staged_before {A B} (m : M E A) (k : A -> M E B) :
  staged E m -> (forall a, emits E neitherCommit (k a)) -> staged E (bind E m k).
Proof.
  intros Hm Hk s. unfold bind. destruct (Hm s) as (u & v & Euv & Fu & Fv).
  destruct (m s) as [[a| e |] s1]; cbn [snd] in *.
  - destruct (Hk a s1) as (l & El & Fl). exists u, (v ++ l).
    rewrite El, Euv, <- !app_assoc. repeat split; auto.
    apply Forall_app; split; [exact Fv|].
    eapply Forall_impl; [exact Fl | apply neither_notStorage].
  - exists u, v. auto.
  - exists u, v. auto.
Qed.

Lemma postExecution_is_staged fuel st sm (p : FraudProofData L) :
  staged E (_start_postExecution E L options fuel st sm p).
Proof.
  intros s. destruct (postExecution_staged E L options fuel st sm p s)
    as (l1 & l2 & Hsent & F1 & F2 & _).
  exists l1, l2. repeat split; auto.
  eapply Forall_impl; [exact F1 | apply storageCommit_notAccount].
Qed.

Lemma makeAccountTries_from_emits P accounts : forall tries,
  emits E P (_makeAccountTries_from E L accounts tries).
Proof.
  induction accounts as [|a rest IH]; intros tries; cbn [_makeAccountTries_from];
    emits_auto.
Qed.
Hint Resolve makeAccountTries_from_emits : emits.

Lemma getFraudProofData_emits P i : emits E P (_getFraudProofData E L options i).
Proof.
  unfold _getFraudProofData, _makeStateTrie, _makeAccountTries; emits_auto.
Qed.

Lemma proveAccountStates_emits st sm accounts i :
  emits E neitherCommit (_proveAccountStates E L options st sm accounts i).
Proof.
  induction accounts as [|a rest IH]; cbn [_proveAccountStates];
    unfold _proveAccountState, _deployContractCode; emits_auto.
Qed.

Lemma proveStorageSlots_emits st addr slots :
  emits E neitherCommit (_proveStorageSlots E L st addr slots).
Proof.
  induction slots as [|sp rest IH]; cbn [_proveStorageSlots]; emits_auto.
Qed.
Hint Resolve proveStorageSlots_emits : emits.

Lemma proveContractStorageStates_emits st accounts :
  emits E neitherCommit (_proveContractStorageStates E L st accounts).
Proof.
  induction accounts as [|a rest IH]; cbn [_proveContractStorageStates]; emits_auto.
Qed.

Lemma preExecution_emits st sm (p : FraudProofData L) i :
  emits E neitherCommit (_start_preExecution E L options st sm p i).
Proof.
  unfold _start_preExecution, phaseCompletedByOther; repeat emits_step;
    auto using proveAccountStates_emits, proveContractStorageStates_emits.
Qed.

Lemma complete_emits st (p : FraudProofData L) :
  emits E neitherCommit (_start_complete E L st p).
Proof.
  unfold _start_complete, _finalizeFraudVerification; emits_auto.
Qed.

Lemma start_dispute_staged fuel i : staged E (_start_dispute E L options fuel i).
Proof.
  unfold _start_dispute.
  apply staged_after; [apply getFraudProofData_emits | intros p].
  apply staged_after;
    [unfold _initializeFraudVerification, _getStateTransitioner; emits_auto | intros _].
  apply staged_after; [emits_auto | intros preStateRoot].
  apply staged_after;
    [unfold _getFraudProofContracts, _getStateTransitioner; emits_auto | intros contracts].
  cbv zeta.
  apply staged_after; [apply preExecution_emits | intros _].
  apply staged_before; [apply postExecution_is_staged | intros _].
  apply emits_bind; [apply complete_emits | intros _; emits_auto].
Qed.

End Dispute.

(* ===================================================================== *)
(** ** 8. The verified properties *)
(* ===================================================================== *)

(** C1.  While the chains are quiescent, let every index from the cursor up
    to (not including) [n] carry a batch header and agreeing roots.  If [n]
    carries a header and the settlement-chain root at [n] differs from the
    rollup root at [n + l2BlockOffset], the scanner returns [n]; if [n]
    carries no header, the scanner returns no index.  And an index the
    scanner returns always carries a header and disagreeing roots: an index
    with equal roots is never selected.  Even while the chains change, a
    selected index is one for which the scanner has just read a header and
    two differing roots. *)
Theorem scanner_selects_first_mismatch
    (E : Env) (options : FraudProverOptions)
    (hdr : Z -> option BatchHeader) (root1 root2 : Z -> string)
    (s : St E) (n : Z) (fuel : nat) :
  quiescent E hdr root1 root2 ->
  nextUnverifiedStateRoot s <= n ->
  (forall j, nextUnverifiedStateRoot s <= j < n -> agrees options hdr root1 root2 j) ->
  (Z.to_nat (n - nextUnverifiedStateRoot s) < fuel)%nat ->
  (hdr n <> None -> root1 n <> root2 (n + l2BlockOffset options) ->
   _findNextFraudulentStateRoot E options fuel s = (Ret (Some n), withCursor s n)) /\
  (hdr n = None ->
   _findNextFraudulentStateRoot E options fuel s = (Ret None, withCursor s n)) /\
  (forall fuel' (s0 s' : St E) i,
     _findNextFraudulentStateRoot E options fuel' s0 = (Ret (Some i), s') ->
     hdr i <> None /\ root1 i <> root2 (i + l2BlockOffset options)) /\
  (forall fuel' (s0 s' : St E) i,
     _findNextFraudulentStateRoot E options fuel' s0 = (Ret (Some i), s') ->
     exists w1 w2 w3 h r1 r2,
       perform E (L1_getStateRootBatchHeader i) w1 = (Ret (Some h), w2) /\
       perform E (L1_getStateRoot i) w2 = (Ret r1, w3) /\
       perform E (L2_getStateRoot (i + l2BlockOffset options)) w3 = (Ret r2, world s') /\
       r1 <> r2).
Proof.
  intros Hq Hle Hag Hfuel.
  set (k := Z.to_nat (n - nextUnverifiedStateRoot s)).
  assert (Hk : nextUnverifiedStateRoot s + Z.of_nat k = n) by (unfold k; lia).
  destruct fuel as [|f0]; [lia|].
  assert (Hsplit : S f0 = (k + S (f0 - k))%nat) by (unfold k in *; lia).
  assert (Hskip : _findNextFraudulentStateRoot E options (S f0) s =
                  _findNextFraudulentStateRoot E options (S (f0 - k)) (withCursor s n)).
  { rewrite Hsplit at 1.
    rewrite (scan_skip E options hdr root1 root2 Hq k).
    - rewrite Hk. reflexivity.
    - intros j Hj. apply Hag. lia. }
  split; [|split; [|split]].
  - intros Hh Hne. rewrite Hskip, (scan_unfold E options hdr root1 root2 Hq).
    cbn [withCursor nextUnverifiedStateRoot].
    destruct (hdr n); [|congruence].
    apply String.eqb_neq in Hne. rewrite Hne. reflexivity.
  - intros Hh. rewrite Hskip, (scan_unfold E options hdr root1 root2 Hq).
    cbn [withCursor nextUnverifiedStateRoot]. rewrite Hh. reflexivity.
  - intros fuel' s0 s' i Hrun.
    destruct (scan_selected E options hdr root1 root2 Hq fuel' s0 s' i Hrun)
      as (_ & Hh & Hne & _).
    split; assumption.
  - intros fuel' s0 s' i Hrun. exact (scanner_selected_reads E options fuel' s0 s' i Hrun).
Qed.

Lemma scanner_selects_first_mismatch_witness :
  (demoHeader 2 <> None -> demoRoot1 2 <> demoRoot2 (2 + l2BlockOffset demoOptions) ->
   _findNextFraudulentStateRoot scanEnv demoOptions 5 (startOf scanEnv tt 0) =
   (Ret (Some 2), withCursor (startOf scanEnv tt 0) 2)) /\
  (demoHeader 2 = None ->
   _findNextFraudulentStateRoot scanEnv demoOptions 5 (startOf scanEnv tt 0) =
   (Ret None, withCursor (startOf scanEnv tt 0) 2)) /\
  (forall fuel' (s0 s' : St scanEnv) i,
     _findNextFraudulentStateRoot scanEnv demoOptions fuel' s0 = (Ret (Some i), s') ->
     demoHeader i <> None /\ demoRoot1 i <> demoRoot2 (i + l2BlockOffset demoOptions)) /\
  (forall fuel' (s0 s' : St scanEnv) i,
     _findNextFraudulentStateRoot scanEnv demoOptions fuel' s0 = (Ret (Some i), s') ->
     exists w1 w2 w3 h r1 r2,
       perform scanEnv (L1_getStateRootBatchHeader i) w1 = (Ret (Some h), w2) /\
       perform scanEnv (L1_getStateRoot i) w2 = (Ret r1, w3) /\
       perform scanEnv (L2_getStateRoot (i + l2BlockOffset demoOptions)) w3
         = (Ret r2, world s') /\
       r1 <> r2).
Proof.
  apply (scanner_selects_first_mismatch scanEnv demoOptions demoHeader demoRoot1 demoRoot2
           (startOf scanEnv tt 0) 2 5).
  - repeat split; intros i w; reflexivity.
  - simpl. lia.
  - simpl. intros j Hj.
    assert (Hc : j = 0 \/ j = 1) by lia.
    destruct Hc as [-> | ->]; split; [discriminate | reflexivity | discriminate | reflexivity].
  - simpl. lia.
Defined.

(** C8 fails as stated: on chains that agree on roots 0 and 1 (root 2 does
    not exist yet) the scanner, started at 0, returns no index and submits
    nothing, but leaves the cursor at 2. *)
Lemma scanner_miss_moves_cursor :
  let s := startOf agreeingEnv tt 0 in
  let r := _findNextFraudulentStateRoot agreeingEnv demoOptions 5 s in
  fst r = Ret None /\ sent (snd r) = sent s /\
  nextUnverifiedStateRoot (snd r) <> nextUnverifiedStateRoot s.
Proof. vm_compute. repeat split; discriminate. Qed.

(** C8, amended.  While the chains are quiescent and the roots agree at
    every index from the cursor up to the first index [n] without a batch
    header, the scanner returns no index, submits nothing and changes
    nothing on the chains, and leaves the cursor at [n], past every index it
    has checked.  Whatever the chains answer, the scanner submits nothing. *)
Theorem scanner_miss_advances_to_tip
    (E : Env) (options : FraudProverOptions)
    (hdr : Z -> option BatchHeader) (root1 root2 : Z -> string)
    (s : St E) (n : Z) (fuel : nat) :
  quiescent E hdr root1 root2 ->
  nextUnverifiedStateRoot s <= n ->
  (forall j, nextUnverifiedStateRoot s <= j < n -> agrees options hdr root1 root2 j) ->
  hdr n = None ->
  (Z.to_nat (n - nextUnverifiedStateRoot s) < fuel)%nat ->
  let r := _findNextFraudulentStateRoot E options fuel s in
  fst r = Ret None /\
  sent (snd r) = sent s /\
  world (snd r) = world s /\
  nextUnverifiedStateRoot (snd r) = n /\
  (forall fuel' (s0 : St E),
     sent (snd (_findNextFraudulentStateRoot E options fuel' s0)) = sent s0).
Proof.
  intros Hq Hle Hag Hh Hfuel r.
  set (k := Z.to_nat (n - nextUnverifiedStateRoot s)).
  assert (Hk : nextUnverifiedStateRoot s + Z.of_nat k = n) by (unfold k; lia).
  assert (Hr : r = (Ret None, withCursor s n)).
  { unfold r. destruct fuel as [|f0]; [lia|].
    replace (S f0) with (k + S (f0 - k))%nat by (unfold k in *; lia).
    rewrite (scan_skip E options hdr root1 root2 Hq k) by (intros j Hj; apply Hag; lia).
    rewrite Hk, (scan_unfold E options hdr root1 root2 Hq).
    cbn [withCursor nextUnverifiedStateRoot]. rewrite Hh. reflexivity. }
  rewrite Hr. cbn [fst snd withCursor sent world nextUnverifiedStateRoot].
  repeat split.
  intros fuel' s0. apply emits_none_sent, scanner_emits.
Qed.

Lemma scanner_miss_advances_to_tip_witness :
  let r := _findNextFraudulentStateRoot agreeingEnv demoOptions 5 (startOf agreeingEnv tt 0) in
  fst r = Ret None /\
  sent (snd r) = sent (startOf agreeingEnv tt 0) /\
  world (snd r) = world (startOf agreeingEnv tt 0) /\
  nextUnverifiedStateRoot (snd r) = 2 /\
  (forall fuel' (s0 : St agreeingEnv),
     sent (snd (_findNextFraudulentStateRoot agreeingEnv demoOptions fuel' s0)) = sent s0).
Proof.
  apply (scanner_miss_advances_to_tip agreeingEnv demoOptions agreeingHeader
           demoRoot1 demoRoot1 (startOf agreeingEnv tt 0) 2 5).
  - repeat split; intros i w; reflexivity.
  - simpl. lia.
  - simpl. intros j Hj.
    assert (Hc : j = 0 \/ j = 1) by lia.
    destruct Hc as [-> | ->]; split; [discriminate | reflexivity | discriminate | reflexivity].
  - reflexivity.
  - simpl. lia.
Defined.

(** C10.  In one handling of the POST_EXECUTION block, the log grows by the
    submissions of the block; among them every [commitStorageSlot] comes
    before every [commitContractState]; and if a [commitContractState] was
    submitted at all, the storage loop had returned normally before, its last
    action being a read of the uncommitted-storage counter that answered
    zero, and everything submitted after that return is not a
    [commitStorageSlot].  The order also holds over a whole dispute, whose
    other blocks submit no commit of either kind. *)
Theorem post_execution_commits_storage_first
    (E : Env) (L : Lib) (options : FraudProverOptions)
    (fuel : nat) (st sm : string) (p : FraudProofData L) (s : St E) :
  let s' := snd (_start_postExecution E L options fuel st sm p s) in
  sent s' = sent s ++ newSubmissions s s' /\
  allBefore isCommitStorageSlot isCommitContractState (newSubmissions s s') /\
  (forall x, x ∈ newSubmissions s s' -> isCommitContractState x = true ->
     exists (s1 s2 : St E) w later,
       _updateContractStorageStates E L options fuel st sm
         (accountStateProofs (stateDiffProof p)) (storageTries p) s1 = (Ret tt, s2) /\
       perform E (SM_getTotalUncommittedContractStorage sm) w = (Ret 0%N, world s2) /\
       newSubmissions s s' = newSubmissions s s2 ++ later /\
       Forall notStorageCommit later) /\
  (forall i (s0 : St E),
     allBefore isCommitStorageSlot isCommitContractState
       (newSubmissions s0 (snd (_start_dispute E L options fuel i s0)))).
Proof.
  intros s'. unfold s'. clear s'.
  destruct (postExecution_staged E L options fuel st sm p s)
    as (l1 & l2 & Hsent & F1 & F2 & Hdone).
  rewrite (newSubmissions_app _ _ _ Hsent).
  split; [exact Hsent|].
  split.
  { apply staged_allBefore; [|exact F2].
    eapply Forall_impl; [exact F1 | apply storageCommit_notAccount]. }
  split.
  - intros x Hx Hacc.
    assert (Hne : l2 <> []).
    { intros ->. rewrite app_nil_r in Hx.
      rewrite Forall_forall in F1. apply F1 in Hx.
      unfold storageCommit in Hx. destruct x; discriminate. }
    destruct (Hdone Hne) as (s1 & s2 & w & Hrun & Hw & Hs2).
    exists s1, s2, w, l2. rewrite (newSubmissions_app _ _ _ Hs2). auto.
  - intros i s0.
    destruct (start_dispute_staged E L options fuel i s0) as (u & v & Huv & Fu & Fv).
    rewrite (newSubmissions_app _ _ _ Huv). apply staged_allBefore; assumption.
Qed.

Lemma post_execution_commits_storage_first_witness :
  let s0 := {| world := {| dw_initialized := true; dw_phase := POST_EXECUTION;
                           dw_storageLeft := 1; dw_accountsLeft := 1;
                           dw_finalized := false; dw_hasAccount := false;
                           dw_glitches := 1 |} : W demoEnv;
               nextUnverifiedStateRoot := 2;
               sent := [] |} in
  newSubmissions s0 (snd (_start_postExecution demoEnv listLib demoOptions 10
                            "0x57" "0x53" demoProofData s0)) =
  [CommitStorageSlot "0x57" "0xA1" "0x01" "n3,n4" 4000000;
   CommitContractState "0x57" "0xA1" "n1,n2,n1,n5" 4000000;
   CommitContractState "0x57" "0xA1" "n1,n2,n1,n5" 4000000;
   CompleteTransition "0x57"] /\
  allBefore isCommitStorageSlot isCommitContractState
    (newSubmissions s0 (snd (_start_postExecution demoEnv listLib demoOptions 10
                               "0x57" "0x53" demoProofData s0))).
Proof.
  intros s0. split.
  - vm_compute. reflexivity.
  - apply (proj1 (proj2 (post_execution_commits_storage_first demoEnv listLib
                           demoOptions 10 "0x57" "0x53" demoProofData s0))).
Defined.





(** C7.  For an account whose rollup code at block [i + l2BlockOffset] is
    ['0x'], the only submission is [proveContractState] with the sentinel
    address as carrier: nothing is deployed.  For any other code the
    submissions are, first, a transaction with [to = null], data the prefix
    [0x600D380380600D6000396000f3] (13 bytes) followed by the code's
    hexadecimal digits, and gas limit [deployGasLimit]; then
    [proveContractState] with the [contractAddress] of that transaction's
    receipt as carrier. *)
Theorem code_carrier_choice
    (E : Env) (L : Lib) (options : FraudProverOptions)
    (st sm : string) (a : AccountStateProof) (i : Z) (s : St E)
    (has : bool) (w0 : W E) (code : string) (w1 : W E) :
  perform E (SM_hasAccount sm (address a)) (world s) = (Ret has, w0) ->
  perform E (L2_getCode (address a) (i + l2BlockOffset options)) w0 = (Ret code, w1) ->
  let s' := snd (_proveAccountState E L options st sm a i s) in
  let deployment :=
    SendTransaction None (deployPrefix +:+ slice 2 (toHexString L code))
      (deployGasLimit options) in
  (code = "0x"%string ->
   newSubmissions s s' =
   [ProveContractState st (address a) codeSentinel (rlp_encode L (accountProof a))]) /\
  (code <> "0x"%string ->
   forall response w2 receipt w3,
     perform E (Submit deployment) w1 = (Ret response, w2) ->
     perform E (Tx_wait response) w2 = (Ret receipt, w3) ->
     newSubmissions s s' =
     [deployment;
      ProveContractState st (address a) (contractAddress receipt)
        (rlp_encode L (accountProof a))]) /\
  deployPrefix = ("0x" +:+ "600D380380600D6000396000f3")%string /\
  String.length (slice 2 deployPrefix) = (2 * 13)%nat /\
  codeSentinel = "0x0000c0De0000C0DE0000c0de0000C0DE0000c0De"%string.
Proof.
  intros Hhas Hcode s' deployment.
  split; [|split; [|repeat split]].
  - intros ->. apply newSubmissions_app. unfold s', _proveAccountState.
    unfold bind at 1. unfold call at 1. rewrite Hhas.
    unfold bind at 1. unfold call at 1. cbn [world]. rewrite Hcode.
    cbn [String.eqb Ascii.eqb Bool.eqb negb andb]. unfold bind at 1. unfold ret at 1.
    unfold catch, bind, call, ret. cbn [world sent nextUnverifiedStateRoot logged].
    destruct (perform E (Submit _) w1) as [[r| e |] w2]; cbn [snd sent].
    + rewrite !app_nil_r. reflexivity.
    + destruct (includes e _); cbn [snd sent throw]; rewrite !app_nil_r; reflexivity.
    + rewrite !app_nil_r. reflexivity.
  - intros Hne response w2 receipt w3 Hsend Hwait. apply newSubmissions_app.
    unfold s', _proveAccountState.
    unfold bind at 1. unfold call at 1. rewrite Hhas.
    unfold bind at 1. unfold call at 1. cbn [world]. rewrite Hcode.
    apply String.eqb_neq in Hne. rewrite Hne. cbn [negb].
    unfold bind at 1. unfold _deployContractCode.
    unfold bind at 1. unfold call at 1. cbn [world]. fold deployment. rewrite Hsend.
    unfold bind at 1. unfold call at 1. cbn [world]. rewrite Hwait.
    unfold ret at 1.
    unfold catch, bind, call, ret. cbn [world sent nextUnverifiedStateRoot logged].
    destruct (perform E (Submit _) w3) as [[r| e |] w4]; cbn [snd sent].
    + rewrite !app_nil_r, <- app_assoc. reflexivity.
    + destruct (includes e _); cbn [snd sent throw]; rewrite !app_nil_r, <- app_assoc;
        reflexivity.
    + rewrite !app_nil_r, <- app_assoc. reflexivity.
Qed.

Lemma code_carrier_choice_witness :
  let s := startOf demoEnv demoWorld0 0 in
  let s' := snd (_proveAccountState demoEnv listLib demoOptions "0x57" "0x53" accountB 2 s) in
  newSubmissions s s' =
  [ProveContractState "0x57" "0xB2" codeSentinel "n1,n5"].
Proof.
  intros s s'.
  apply (proj1 (code_carrier_choice demoEnv listLib demoOptions "0x57" "0x53" accountB 2 s
                  false demoWorld0 "0x" demoWorld0 eq_refl eq_refl)).
  reflexivity.
Defined.




(** C2, evaluated where it fails: the state manager answers that the account
    is already there ([hasAccount] is [true]), and the driver still deploys a
    code carrier and still submits [proveContractState] for it. *)
Theorem proven_account_is_not_skipped :
  let s := startOf provenEnv tt 2 in
  perform provenEnv (SM_hasAccount "0x53" (address accountA)) (world s) = (Ret true, tt) /\
  newSubmissions s
    (snd (_proveAccountStates provenEnv listLib demoOptions "0x57" "0x53" [accountA] 2 s)) =
  [SendTransaction None "0x600D380380600D6000396000f36001" 4000000;
   ProveContractState "0x57" "0xA1" "0xC0" "n1,n2"].
Proof. vm_compute. split; reflexivity. Qed.


(** C5, evaluated where it fails.  The state manager reports one uncommitted
    account and one uncommitted storage slot, while everything in the proof
    data is reported as committed.  The account loop raises its error.  The
    storage loop raises nothing: each pass finds no slot to commit, submits
    nothing and starts over, for as many passes as it is given. *)
Theorem storage_loop_has_no_exhaustion_check :
  let s := startOf stuckEnv tt 2 in
  let accounts := [accountA; accountB] in
  _updateAccountStates stuckEnv listLib demoOptions 3 "0x57" "0x53" accounts
    (stateTrie demoProofData) s = (Throw noMoreAccountProofData, s) /\
  forall fuel,
    _updateContractStorageStates stuckEnv listLib demoOptions fuel "0x57" "0x53" accounts
      (storageTries demoProofData) s = (OutOfFuel, s).
Proof.
  intros s accounts. split.
  - vm_compute. reflexivity.
  - induction fuel as [|fuel IH].
    + reflexivity.
    + cbn [_updateContractStorageStates].
      unfold bind at 1. unfold call at 1.
      cbn -[_updateContractStorageStates].
      exact IH.
Qed.

(* ===================================================================== *)
(** ** 9. Further properties of the service *)
(* ===================================================================== *)

(** *** The cursor *)

Lemma scanner_cursor_grows (E : Env) (options : FraudProverOptions) fuel :
  forall s : St E,
    nextUnverifiedStateRoot s <=
    nextUnverifiedStateRoot (snd (_findNextFraudulentStateRoot E options fuel s)).
Proof.
  induction fuel as [|fuel IH]; intros s; cbn [_findNextFraudulentStateRoot].
  - cbn. lia.
  - unfold bind, getCursor, setCursor, ret, call.
    destruct (perform E (L1_getStateRootBatchHeader _) _) as [[[h|]| e |] w1];
      cbn [snd world nextUnverifiedStateRoot sent]; try lia.
    destruct (perform E (L1_getStateRoot _) _) as [[r1| e |] w2];
      cbn [snd world nextUnverifiedStateRoot sent]; try lia.
    destruct (perform E (L2_getStateRoot _) _) as [[r2| e |] w3];
      cbn [snd world nextUnverifiedStateRoot sent]; try lia.
    destruct (negb _); cbn [snd nextUnverifiedStateRoot]; [lia|].
    match goal with
    | |- _ <= nextUnverifiedStateRoot (snd (_ ?s1)) =>
        specialize (IH s1); cbn [nextUnverifiedStateRoot] in IH
    end.
    lia.
Qed.

(** X1.  Whatever the chains answer, and however the scan ends (an index, no
    index, an error of an RPC), the scanner never moves the cursor
    backwards. *)
Theorem scanner_never_rewinds
    (E : Env) (options : FraudProverOptions) (fuel : nat) (s : St E) :
  nextUnverifiedStateRoot s <=
  nextUnverifiedStateRoot (snd (_findNextFraudulentStateRoot E options fuel s)).
Proof. apply scanner_cursor_grows. Qed.

(** X2.  Over one poll the cursor either does not decrease, or the poll ran a
    dispute to its end and the cursor is the [prevTotalElements] of the
    pre-state-root batch header of that dispute's proof data: the rewind
    after a dispute is the only way back. *)
Theorem poll_cursor_moves
    (E : Env) (L : Lib) (options : FraudProverOptions) (fuel : nat) (s : St E) :
  let s' := snd (_start_iteration E L options fuel s) in
  nextUnverifiedStateRoot s <= nextUnverifiedStateRoot s' \/
  exists i s1 p s2,
    _findNextFraudulentStateRoot E options fuel s = (Ret (Some i), s1) /\
    _start_dispute E L options fuel i s1 = (Ret p, s2) /\
    nextUnverifiedStateRoot s' =
    prevTotalElements (stateRootBatchHeader (preStateRootProof p)).
Proof.
  intros s'. unfold s'. clear s'.
  pose proof (scanner_cursor_grows E options fuel s) as Hgrow.
  destruct (_findNextFraudulentStateRoot E options fuel s) as [[[i|]| e |] s1] eqn:Hscan;
    cbn [snd] in Hgrow.
  - rewrite (start_iteration_selected E L options fuel s s1 i Hscan).
    pose proof (start_dispute_keeps E L options fuel i s1) as Hkeep.
    destruct (_start_dispute E L options fuel i s1) as [[p| e |] s2] eqn:Hd;
      cbn [snd] in Hkeep.
    + unfold toNumber. destruct (Z.abs _ <? 2 ^ 53).
      * right. exists i, s1, p, s2. split; [reflexivity|]. split; [exact Hd | reflexivity].
      * left. cbn [snd]. lia.
    + left. cbn [snd]. lia.
    + left. cbn [snd]. lia.
  - left. unfold _start_iteration, _start_try, catch, bind. rewrite Hscan. exact Hgrow.
  - left. unfold _start_iteration, _start_try, catch, bind. rewrite Hscan. exact Hgrow.
  - left. unfold _start_iteration, _start_try, catch, bind. rewrite Hscan. exact Hgrow.
Qed.

(** *** The driver loop *)



(** *** The three phase blocks *)




Section Blocks.

Context (E : Env) (L : Lib) (options : FraudProverOptions).

Lemma proveAccountStates_steps st sm accounts i :
  emits E proofStep (_proveAccountStates E L options st sm accounts i).
Proof.
  induction accounts as [|a rest IH]; cbn [_proveAccountStates];
    unfold _proveAccountState, _deployContractCode; emits_auto.
Qed.

Lemma proveStorageSlots_steps st addr slots :
  emits E proofStep (_proveStorageSlots E L st addr slots).
Proof.
  induction slots as [|sp rest IH]; cbn [_proveStorageSlots]; emits_auto.
Qed.

Lemma proveContractStorageStates_steps st accounts :
  emits E proofStep (_proveContractStorageStates E L st accounts).
Proof.
  induction accounts as [|a rest IH]; cbn [_proveContractStorageStates];
    repeat emits_step; auto using proveStorageSlots_steps.
Qed.

Lemma tailed_after {A B} (P : Submission -> Prop) (Q : list Submission -> Prop)
    (m : M E A) (k : A -> M E B) :
  Q [] -> emits E P m -> (forall a, tailed E P Q (k a)) -> tailed E P Q (bind E m k).
Proof.
  intros Hnil Hm Hk s. unfold bind. destruct (Hm s) as (l & El & Fl).
  destruct (m s) as [[a| e |] s1]; cbn [snd] in *.
  - destruct (Hk a s1) as (u & v & Euv & Fu & Qv). exists (l ++ u), v.
    rewrite Euv, El, <- !app_assoc. repeat split; auto. apply Forall_app; auto.
  - exists l, []. rewrite app_nil_r. auto.
  - exists l, []. rewrite app_nil_r. auto.
Qed.

Lemma tailed_catch {A} (P : Submission -> Prop) (Q : list Submission -> Prop)
    (m : M E A) (h : string -> M E A) :
  (forall e s', sent (snd (h e s')) = sent s') -> tailed E P Q m ->
  tailed E P Q (catch E m h).
Proof.
  intros Hh Hm s. rewrite (catch_sent E m h s Hh). apply Hm.
Qed.

Lemma tailed_submit (P : Submission -> Prop) (x : Submission) :
  tailed E P (atMostOnly x) (bind E (call E (Submit x)) (fun _ => ret E tt)).
Proof.
  intros s. exists [], [x]. unfold bind, call, ret.
  destruct (perform E (Submit x) (world s)) as [[r| e |] w1]; cbn [snd sent logged];
    (split; [reflexivity | split; [constructor | right; reflexivity]]).
Qed.

Lemma tailed_idle {A} (P : Submission -> Prop) (Q : list Submission -> Prop) (m : M E A) :
  Q [] -> (forall s, sent (snd (m s)) = sent s) -> tailed E P Q m.
Proof.
  intros Hnil Hm s. exists [], []. rewrite Hm, !app_nil_r. auto.
Qed.

Lemma preExecution_tailed st sm (p : FraudProofData L) i :
  tailed E proofStep
    (atMostOnly (ApplyTransaction st (transaction (transactionProof p))
                   (runGasLimit options)))
    (_start_preExecution E L options st sm p i).
Proof.
  unfold _start_preExecution.
  apply tailed_after; [left; reflexivity | emits_auto | intros ph].
  destruct (phase_eqb ph PRE_EXECUTION).
  - apply tailed_catch; [apply phaseCompletedByOther_sent|].
    apply tailed_after; [left; reflexivity | apply proveAccountStates_steps | intros _].
    apply tailed_after;
      [left; reflexivity | apply proveContractStorageStates_steps | intros _].
    apply tailed_submit.
  - apply tailed_idle; [left; reflexivity | reflexivity].
Qed.

(** The account loop returns only after the uncommitted-accounts counter has
    read zero, from its loop test or from the test that follows a vain
    search. *)
Lemma updateAccountStates_done fuel st sm accounts : forall trie (s s' : St E),
  _updateAccountStates E L options fuel st sm accounts trie s = (Ret tt, s') ->
  exists w, perform E (SM_getTotalUncommittedAccounts sm) w = (Ret 0%N, world s').
Proof.
  induction fuel as [|fuel IH]; intros trie s s'; cbn [_updateAccountStates].
  - discriminate.
  - unfold bind at 1. unfold call at 1.
    destruct (perform E (SM_getTotalUncommittedAccounts sm) (world s))
      as [[n| e |] w1] eqn:Hn; try discriminate.
    destruct (0 <? n)%N eqn:Hpos.
    + unfold bind at 1. unfold _updateAccountStates_body.
      unfold bind at 1.
      destruct (call E (ST_queryAccountCommitted st) _) as [[ev| e |] s1];
        try discriminate.
      unfold bind at 1.
      destruct (putCommittedAccounts E L sm _ trie s1) as [[tr| e |] s2];
        try discriminate.
      unfold bind at 1.
      destruct (findNextUncommittedAccount E sm accounts s2) as [[[next|]| e |] s3];
        try discriminate.
      * unfold bind at 1.
        destruct (lift E _ s3) as [[nodes| e |] s4]; try discriminate.
        unfold bind at 1.
        destruct (call E (SM_getAccount sm (address next)) s4) as [[acc| e |] s5];
          try discriminate.
        unfold bind at 1.
        destruct (tryCommitContractState E options st (address next) _ s5)
          as [[[]| e |] s6]; try discriminate.
        unfold ret at 1. apply IH.
      * unfold bind at 1. unfold call at 1.
        destruct (perform E (SM_getTotalUncommittedAccounts sm) (world s3))
          as [[n2| e |] w2] eqn:Hn2; try discriminate.
        destruct (0 <? n2)%N eqn:Hpos2; [discriminate|].
        unfold ret. intros H; inversion H; subst; cbn [world].
        exists (world s3). rewrite Hn2. apply N.ltb_ge in Hpos2.
        replace n2 with 0%N by lia. reflexivity.
    + unfold ret. intros H; inversion H; subst; cbn [world].
      exists (world s). rewrite Hn. apply N.ltb_ge in Hpos.
      replace n with 0%N by lia. reflexivity.
Qed.

End Blocks.

(** X5.  Whatever the collaborators answer, one handling of the
    PRE_EXECUTION block submits carrier deployments and proofs only, and
    after them at most one [applyTransaction], which carries the disputed
    transaction and the gas limit [runGasLimit]: [applyTransaction] is never
    followed by a proof and never submitted twice. *)
Theorem pre_execution_applies_last
    (E : Env) (L : Lib) (options : FraudProverOptions)
    (st sm : string) (p : FraudProofData L) (i : Z) (s : St E) :
  exists proofs tail,
    newSubmissions s (snd (_start_preExecution E L options st sm p i s)) = proofs ++ tail /\
    Forall proofStep proofs /\
    atMostOnly (ApplyTransaction st (transaction (transactionProof p)) (runGasLimit options))
      tail.
Proof.
  destruct (preExecution_tailed E L options st sm p i s) as (u & v & Huv & Fu & Qv).
  exists u, v. rewrite (newSubmissions_app _ _ _ Huv). auto.
Qed.

Lemma storageCommit_commitStep x : storageCommit x -> commitStep x.
Proof. unfold storageCommit, commitStep, isCommit. intros ->. reflexivity. Qed.

Lemma accountCommit_commitStep x : accountCommit x -> commitStep x.
Proof.
  unfold accountCommit, commitStep, isCommit. intros ->. apply orb_true_r.
Qed.

(** X6.  Whatever the collaborators answer, one handling of the
    POST_EXECUTION block submits commits only, and after them at most one
    [completeTransition]; and [completeTransition] is submitted only after
    the account loop has returned normally, its last action being a read of
    the uncommitted-accounts counter that answered zero. *)
Theorem post_execution_completes_last
    (E : Env) (L : Lib) (options : FraudProverOptions)
    (fuel : nat) (st sm : string) (p : FraudProofData L) (s : St E) :
  exists commits tail,
    newSubmissions s (snd (_start_postExecution E L options fuel st sm p s))
      = commits ++ tail /\
    Forall commitStep commits /\
    atMostOnly (CompleteTransition st) tail /\
    (tail <> [] ->
     exists (s1 s2 : St E) w,
       _updateAccountStates E L options fuel st sm
         (accountStateProofs (stateDiffProof p)) (stateTrie p) s1 = (Ret tt, s2) /\
       perform E (SM_getTotalUncommittedAccounts sm) w = (Ret 0%N, world s2)).
Proof.
  unfold _start_postExecution. unfold bind at 1.
  pose proof (call_sent E (ST_phase st) s) as Hph. cbn [logged] in Hph.
  rewrite app_nil_r in Hph.
  destruct (call E (ST_phase st) s) as [[ph| e |] s0]; cbn [snd] in Hph.
  2,3: exists [], []; cbn [snd]; unfold newSubmissions; rewrite Hph, drop_all;
       repeat split; auto; [left; reflexivity | congruence].
  destruct (phase_eqb ph POST_EXECUTION).
  2: { exists [], []. cbn [ret snd]. unfold newSubmissions. rewrite Hph, drop_all.
       repeat split; auto; [left; reflexivity | congruence]. }
  set (body := bind E _ _).
  assert (Hbody : exists commits tail,
             sent (snd (body s0)) = sent s0 ++ commits ++ tail /\
             Forall commitStep commits /\
             atMostOnly (CompleteTransition st) tail /\
             (tail <> [] ->
              exists (s1 s2 : St E) w,
                _updateAccountStates E L options fuel st sm
                  (accountStateProofs (stateDiffProof p)) (stateTrie p) s1 = (Ret tt, s2) /\
                perform E (SM_getTotalUncommittedAccounts sm) w = (Ret 0%N, world s2))).
  { unfold body. unfold bind at 1.
    destruct (updateContractStorageStates_emits E L options fuel st sm
                (accountStateProofs (stateDiffProof p)) (storageTries p) s0)
      as (l1 & E1 & F1).
    assert (C1 : Forall commitStep l1)
      by (eapply Forall_impl; [exact F1 | apply storageCommit_commitStep]).
    destruct (_updateContractStorageStates E L options fuel st sm _ _ s0)
      as [[[]| e |] s1]; cbn [snd] in E1.
    2,3: exists l1, []; cbn [snd]; rewrite E1, app_nil_r;
         repeat split; auto; [left; reflexivity | congruence].
    unfold bind at 1.
    destruct (updateAccountStates_emits E L options fuel st sm
                (accountStateProofs (stateDiffProof p)) (stateTrie p) s1)
      as (l2 & E2 & F2).
    assert (C2 : Forall commitStep l2)
      by (eapply Forall_impl; [exact F2 | apply accountCommit_commitStep]).
    destruct (_updateAccountStates E L options fuel st sm _ _ s1)
      as [[[]| e |] s2] eqn:Hacc; cbn [snd] in E2.
    2,3: exists (l1 ++ l2), []; cbn [snd]; rewrite E2, E1, app_nil_r, <- app_assoc;
         repeat split; auto; [apply Forall_app; auto | left; reflexivity | congruence].
    exists (l1 ++ l2), [CompleteTransition st].
    pose proof (call_sent E (Submit (CompleteTransition st)) s2) as Hc.
    cbn [logged] in Hc.
    unfold bind, ret.
    destruct (call E (Submit (CompleteTransition st)) s2) as [[r| e |] s3];
      cbn [snd] in Hc |- *; rewrite Hc, E2, E1, <- !app_assoc;
      (repeat split; [apply Forall_app; auto | right; reflexivity |]);
      intros _;
      destruct (updateAccountStates_done E L options _ _ _ _ _ _ _ Hacc) as (w & Hw);
      exists s1, s2, w; auto. }
  destruct Hbody as (commits & tail & Hsent & Fc & Ht & Hdone).
  exists commits, tail.
  rewrite (newSubmissions_app s _ (commits ++ tail)).
  - auto.
  - rewrite catch_sent by apply phaseCompletedByOther_sent. rewrite Hsent, Hph. reflexivity.
Qed.

(** *** The proving loops of PRE_EXECUTION *)

Section Proving.

Context (E : Env) (L : Lib) (options : FraudProverOptions).

Lemma follows_ret : follows E [] (ret E tt).
Proof.
  intros s. exists []. cbn. rewrite app_nil_r. repeat split; auto.
Qed.

Lemma follows_seq (e1 e2 : list Submission) (m k : M E unit) :
  follows E e1 m -> follows E e2 k -> follows E (e1 ++ e2) (bind E m (fun _ => k)).
Proof.
  intros Hm Hk s. unfold bind. destruct (Hm s) as (l1 & E1 & P1 & R1).
  destruct (m s) as [[[]| e |] s1]; cbn [snd fst] in *.
  - destruct (Hk s1) as (l2 & E2 & P2 & R2). exists (l1 ++ l2).
    rewrite E2, E1, app_assoc. rewrite (R1 eq_refl). repeat split.
    + apply prefix_app. exact P2.
    + intros Hret. rewrite (R2 Hret). reflexivity.
  - exists l1. repeat split; auto.
    + apply prefix_app_r. exact P1.
    + discriminate.
  - exists l1. repeat split; auto.
    + apply prefix_app_r. exact P1.
    + discriminate.
Qed.

(** A guarded submission: the transaction is submitted once, whether the
    guard absorbs its revert or not. *)
Lemma follows_guarded (x : Submission) (h : string -> M E unit) :
  (forall e s', sent (snd (h e s')) = sent s') ->
  follows E [x] (catch E (bind E (call E (Submit x)) (fun _ => ret E tt)) h).
Proof.
  intros Hh s. exists [x]. rewrite (catch_sent E _ h s Hh).
  unfold bind, ret.
  pose proof (call_sent E (Submit x) s) as Hc. cbn [logged] in Hc.
  destruct (call E (Submit x) s) as [[r| e |] s1]; cbn [snd] in *; auto.
Qed.

Lemma proveStorageSlots_follows st addr slots :
  follows E (slotProofsOf L st addr slots) (_proveStorageSlots E L st addr slots).
Proof.
  induction slots as [|slot rest IH]; cbn [_proveStorageSlots slotProofsOf map].
  - apply follows_ret.
  - apply (follows_seq [_] _).
    + apply follows_guarded. intros e s'. destruct (includes e _); reflexivity.
    + exact IH.
Qed.

Lemma proveContractStorageStates_follows st accounts :
  follows E (storageProofsOf L st accounts) (_proveContractStorageStates E L st accounts).
Proof.
  induction accounts as [|a rest IH];
    cbn [_proveContractStorageStates storageProofsOf flat_map].
  - apply follows_ret.
  - apply follows_seq; [apply proveStorageSlots_follows | exact IH].
Qed.

End Proving.

(** X7.  Whatever the transitioner answers, [_proveContractStorageStates]
    submits [proveStorageSlot] for the slots of the proof data in their
    order, account after account, each slot at most once and nothing else:
    its submissions are a prefix of that list, and the whole list when it
    returns normally.  An account without slots contributes nothing. *)
Theorem storage_proofs_follow_proof_data
    (E : Env) (L : Lib) (st : string) (accounts : list AccountStateProof) (s : St E) :
  let r := _proveContractStorageStates E L st accounts s in
  newSubmissions s (snd r) `prefix_of` storageProofsOf L st accounts /\
  (fst r = Ret tt -> newSubmissions s (snd r) = storageProofsOf L st accounts) /\
  (forall a, storageProof a = [] ->
             storageProofsOf L st (a :: accounts) = storageProofsOf L st accounts).
Proof.
  intros r. unfold r. clear r.
  destruct (proveContractStorageStates_follows E L st accounts s) as (l & El & Pl & Rl).
  rewrite (newSubmissions_app _ _ _ El). repeat split; auto.
  intros a Ha. unfold storageProofsOf. cbn [flat_map]. rewrite Ha. reflexivity.
Qed.

Lemma storage_proofs_follow_proof_data_witness :
  let r := _proveContractStorageStates demoEnv listLib "0x57" [accountA; accountB]
             (startOf demoEnv demoWorld0 2) in
  newSubmissions (startOf demoEnv demoWorld0 2) (snd r)
    `prefix_of` storageProofsOf listLib "0x57" [accountA; accountB] /\
  (fst r = Ret tt ->
   newSubmissions (startOf demoEnv demoWorld0 2) (snd r)
   = storageProofsOf listLib "0x57" [accountA; accountB]) /\
  (forall a, storageProof a = [] ->
             storageProofsOf listLib "0x57" (a :: [accountA; accountB])
             = storageProofsOf listLib "0x57" [accountA; accountB]).
Proof.
  apply (storage_proofs_follow_proof_data demoEnv listLib "0x57" [accountA; accountB]
           (startOf demoEnv demoWorld0 2)).
Defined.

Lemma call_throw E {A} (c : Call A) (s : St E) e w' :
  perform E c (world s) = (Throw e, w') ->
  call E c s = (Throw e, afterCall s w' (logged c)).
Proof. intros H. unfold call. rewrite H. reflexivity. Qed.

Lemma call_ret E {A} (c : Call A) (s : St E) a w' :
  perform E c (world s) = (Ret a, w') ->
  call E c s = (Ret a, afterCall s w' (logged c)).
Proof. intros H. unfold call. rewrite H. reflexivity. Qed.

Lemma afterCall_afterCall {E} (s : St E) w1 w2 l1 l2 :
  afterCall (afterCall s w1 l1) w2 l2 = afterCall s w2 (l1 ++ l2).
Proof. unfold afterCall. cbn. rewrite app_assoc. reflexivity. Qed.

(** X8.  The deployment of a code carrier is outside the guard of
    [proveContractState]: when the creation transaction is refused, or when
    waiting for its receipt fails, the error is raised as it is, whatever its
    text, and no [proveContractState] is submitted for the account. *)
Theorem deployment_failure_is_raised
    (E : Env) (L : Lib) (options : FraudProverOptions)
    (st sm : string) (a : AccountStateProof) (i : Z) (s : St E)
    (has : bool) (w0 : W E) (code : string) (w1 : W E) (e : string) :
  perform E (SM_hasAccount sm (address a)) (world s) = (Ret has, w0) ->
  perform E (L2_getCode (address a) (i + l2BlockOffset options)) w0 = (Ret code, w1) ->
  code <> "0x"%string ->
  let deployment :=
    SendTransaction None (deployPrefix +:+ slice 2 (toHexString L code))
      (deployGasLimit options) in
  (forall w2,
     perform E (Submit deployment) w1 = (Throw e, w2) ->
     _proveAccountState E L options st sm a i s = (Throw e, afterCall s w2 [deployment])) /\
  (forall response w2 w3,
     perform E (Submit deployment) w1 = (Ret response, w2) ->
     perform E (Tx_wait response) w2 = (Throw e, w3) ->
     _proveAccountState E L options st sm a i s = (Throw e, afterCall s w3 [deployment])).
Proof.
  intros Hhas Hcode Hne deployment. apply String.eqb_neq in Hne.
  split.
  - intros w2 Hsend. unfold _proveAccountState.
    unfold bind at 1. rewrite (call_ret E _ s _ _ Hhas). cbn [logged].
    unfold bind at 1. rewrite (call_ret E _ (afterCall s w0 []) _ _ Hcode). cbn [logged].
    rewrite Hne. cbn [negb]. unfold bind at 1. unfold _deployContractCode.
    unfold bind at 1. fold deployment.
    rewrite (call_throw E _ (afterCall (afterCall s w0 []) w1 []) _ _ Hsend).
    rewrite !afterCall_afterCall. reflexivity.
  - intros response w2 w3 Hsend Hwait. unfold _proveAccountState.
    unfold bind at 1. rewrite (call_ret E _ s _ _ Hhas). cbn [logged].
    unfold bind at 1. rewrite (call_ret E _ (afterCall s w0 []) _ _ Hcode). cbn [logged].
    rewrite Hne. cbn [negb]. unfold bind at 1. unfold _deployContractCode.
    unfold bind at 1. fold deployment.
    rewrite (call_ret E _ (afterCall (afterCall s w0 []) w1 []) _ _ Hsend). cbn [logged].
    unfold bind at 1.
    rewrite (call_throw E _ (afterCall (afterCall (afterCall s w0 []) w1 []) w2 [deployment])
               _ _ Hwait).
    rewrite !afterCall_afterCall. reflexivity.
Qed.

Lemma deployment_failure_is_raised_witness :
  let s := startOf brokeEnv tt 2 in
  let e := "Error: insufficient funds for gas * price + value"%string in
  let deployment :=
    SendTransaction None (deployPrefix +:+ slice 2 (toHexString listLib "0x6001"))
      (deployGasLimit demoOptions) in
  (forall w2,
     perform brokeEnv (Submit deployment) tt = (Throw e, w2) ->
     _proveAccountState brokeEnv listLib demoOptions "0x57" "0x53" accountA 2 s
     = (Throw e, afterCall s w2 [deployment])) /\
  (forall response w2 w3,
     perform brokeEnv (Submit deployment) tt = (Ret response, w2) ->
     perform brokeEnv (Tx_wait response) w2 = (Throw e, w3) ->
     _proveAccountState brokeEnv listLib demoOptions "0x57" "0x53" accountA 2 s
     = (Throw e, afterCall s w3 [deployment])).
Proof.
  intros s e deployment.
  apply (deployment_failure_is_raised brokeEnv listLib demoOptions "0x57" "0x53" accountA 2 s
           false tt "0x6001" tt e).
  - reflexivity.
  - reflexivity.
  - discriminate.
Defined.

(** X9.  A revert of [proveContractState] whose message contains "Account
    state has already been proven" is absorbed and the loop goes on with the
    next account; with any other message the error is raised again and the
    remaining accounts are left alone.  Likewise for [proveStorageSlot] and
    "Storage slot has already been proven.". *)
Theorem peer_proofs_are_absorbed
    (E : Env) (L : Lib) (options : FraudProverOptions)
    (st sm : string) (i : Z) (err : string) :
  (forall (a : AccountStateProof) (rest : list AccountStateProof) (s s3 : St E)
          (has : bool) (w0 : W E) (code : string) (w1 : W E) (carrier : string) (w4 : W E),
     perform E (SM_hasAccount sm (address a)) (world s) = (Ret has, w0) ->
     perform E (L2_getCode (address a) (i + l2BlockOffset options)) w0 = (Ret code, w1) ->
     (if negb (String.eqb code "0x") then _deployContractCode E L options code
      else ret E codeSentinel) (afterCall s w1 []) = (Ret carrier, s3) ->
     let proving :=
       ProveContractState st (address a) carrier (rlp_encode L (accountProof a)) in
     perform E (Submit proving) (world s3) = (Throw err, w4) ->
     _proveAccountStates E L options st sm (a :: rest) i s =
     if includes err "Account state has already been proven"
     then _proveAccountStates E L options st sm rest i (afterCall s3 w4 [proving])
     else (Throw err, afterCall s3 w4 [proving])) /\
  (forall (addr : string) (slot : StorageStateProof) (rest : list StorageStateProof)
          (s : St E) (w' : W E),
     let proving :=
       ProveStorageSlot st addr (toBytes32 L (key slot)) (rlp_encode L (proof slot)) in
     perform E (Submit proving) (world s) = (Throw err, w') ->
     _proveStorageSlots E L st addr (slot :: rest) s =
     if includes err "Storage slot has already been proven."
     then _proveStorageSlots E L st addr rest (afterCall s w' [proving])
     else (Throw err, afterCall s w' [proving])).
Proof.
  split.
  - intros a rest s s3 has w0 code w1 carrier w4 Hhas Hcode Hcarrier proving Hprove.
    cbn [_proveAccountStates]. unfold bind at 1. unfold _proveAccountState.
    unfold bind at 1. rewrite (call_ret E _ s _ _ Hhas). cbn [logged].
    unfold bind at 1. rewrite (call_ret E _ (afterCall s w0 []) _ _ Hcode). cbn [logged].
    rewrite afterCall_afterCall. cbn [app].
    unfold bind at 1. rewrite Hcarrier.
    unfold catch. unfold bind at 1. fold proving.
    rewrite (call_throw E _ s3 _ _ Hprove). cbn [logged].
    destruct (includes err _); reflexivity.
  - intros addr slot rest s w' proving Hprove.
    cbn [_proveStorageSlots]. unfold bind at 1. unfold catch. unfold bind at 1.
    fold proving. rewrite (call_throw E _ s _ _ Hprove). cbn [logged].
    destruct (includes err _); reflexivity.
Qed.

Lemma peer_proofs_are_absorbed_witness :
  let err :=
    "Error: VM Exception while processing transaction: revert Storage slot has already been proven."%string in
  let s := startOf brokeEnv tt 2 in
  let proving :=
    ProveStorageSlot "0x57" "0xA1" (toBytes32 listLib (key slotA))
      (rlp_encode listLib (proof slotA)) in
  _proveStorageSlots brokeEnv listLib "0x57" "0xA1" [slotA] s =
  if includes err "Storage slot has already been proven."
  then _proveStorageSlots brokeEnv listLib "0x57" "0xA1" [] (afterCall s tt [proving])
  else (Throw err, afterCall s tt [proving]).
Proof.
  intros err s proving.
  apply (proj2 (peer_proofs_are_absorbed brokeEnv listLib demoOptions "0x57" "0x53" 2 err)
           "0xA1" slotA [] s tt).
  reflexivity.
Defined.

Section ProvingAccounts.

Context (E : Env) (L : Lib) (options : FraudProverOptions) (st : string).

Abbreviation gas := (deployGasLimit options).

Lemma provenAccounts_app l1 l2 :
  provenAccounts (l1 ++ l2) = provenAccounts l1 ++ provenAccounts l2.
Proof. unfold provenAccounts. apply flat_map_app. Qed.

Lemma deployments_prove_nothing l :
  Forall (deploymentWith gas) l ->
  provenAccounts l = [] /\ Forall (proofOrDeployment st gas) l.
Proof.
  induction 1 as [|x l Hx _ [IHp IHf]]; [split; [reflexivity | constructor]|].
  destruct x as [| [to|] ? ? | | | | | | |]; try contradiction.
  split; [exact IHp | constructor; [exact Hx | exact IHf]].
Qed.

Lemma proves_ret : proves E st gas [] (ret E tt).
Proof.
  intros s. exists []. cbn. rewrite app_nil_r. repeat split; auto.
Qed.

Lemma proves_seq e1 e2 (m k : M E unit) :
  proves E st gas e1 m -> proves E st gas e2 k ->
  proves E st gas (e1 ++ e2) (bind E m (fun _ => k)).
Proof.
  intros Hm Hk s. unfold bind. destruct (Hm s) as (l1 & E1 & F1 & P1 & R1).
  destruct (m s) as [[[]| e |] s1]; cbn [snd fst] in *.
  - destruct (Hk s1) as (l2 & E2 & F2 & P2 & R2). exists (l1 ++ l2).
    rewrite E2, E1, app_assoc, provenAccounts_app, (R1 eq_refl). repeat split.
    + apply Forall_app; auto.
    + apply prefix_app. exact P2.
    + intros Hret. rewrite (R2 Hret). reflexivity.
  - exists l1. repeat split; auto; [apply prefix_app_r; exact P1 | discriminate].
  - exists l1. repeat split; auto; [apply prefix_app_r; exact P1 | discriminate].
Qed.

Lemma proves_after {A} expected (m : M E A) (k : A -> M E unit) :
  emits E (deploymentWith gas) m -> (forall a, proves E st gas expected (k a)) ->
  proves E st gas expected (bind E m k).
Proof.
  intros Hm Hk s. unfold bind. destruct (Hm s) as (l1 & E1 & F1).
  destruct (deployments_prove_nothing l1 F1) as [N1 D1].
  destruct (m s) as [[a| e |] s1]; cbn [snd fst] in *.
  - destruct (Hk a s1) as (l2 & E2 & F2 & P2 & R2). exists (l1 ++ l2).
    rewrite E2, E1, app_assoc, provenAccounts_app, N1. cbn [app]. repeat split; auto.
    apply Forall_app; auto.
  - exists l1. rewrite N1. repeat split; auto; [apply prefix_nil | discriminate].
  - exists l1. rewrite N1. repeat split; auto; [apply prefix_nil | discriminate].
Qed.

Lemma proves_guarded addr carrier encodedProof (h : string -> M E unit) :
  (forall e s', sent (snd (h e s')) = sent s') ->
  proves E st gas [(addr, encodedProof)]
    (catch E (bind E (call E (Submit (ProveContractState st addr carrier encodedProof)))
                (fun _ => ret E tt)) h).
Proof.
  intros Hh s. exists [ProveContractState st addr carrier encodedProof].
  rewrite (catch_sent E _ h s Hh). unfold bind, ret.
  pose proof (call_sent E (Submit (ProveContractState st addr carrier encodedProof)) s)
    as Hc. cbn [logged] in Hc.
  destruct (call E (Submit _) s) as [[r| e |] s1]; cbn [snd] in *;
    (repeat split; [exact Hc | repeat constructor | reflexivity]).
Qed.

Lemma deployContractCode_deploys code :
  emits E (deploymentWith gas) (_deployContractCode E L options code).
Proof. unfold _deployContractCode. emits_auto. Qed.

Lemma proveAccountState_proves sm a i :
  proves E st gas [(address a, rlp_encode L (accountProof a))]
    (_proveAccountState E L options st sm a i).
Proof.
  unfold _proveAccountState.
  apply proves_after; [emits_auto | intros has].
  apply proves_after; [emits_auto | intros code].
  apply proves_after.
  - destruct (negb _); [apply deployContractCode_deploys | emits_auto].
  - intros carrier. apply proves_guarded.
    intros e s'. destruct (includes e _); reflexivity.
Qed.

Lemma proveAccountStates_proves sm accounts i :
  proves E st gas (accountProofsOf L accounts)
    (_proveAccountStates E L options st sm accounts i).
Proof.
  induction accounts as [|a rest IH]; cbn [_proveAccountStates accountProofsOf map].
  - apply proves_ret.
  - apply (proves_seq [_] _); [apply proveAccountState_proves | exact IH].
Qed.

End ProvingAccounts.

(** X10.  Whatever the collaborators answer (the answer of [hasAccount]
    included), [_proveAccountStates] submits contract creations with gas limit
    [deployGasLimit] and [proveContractState] on the given transitioner, and
    nothing else; the accounts it proves, each with the encoding of its
    [accountProof], are a prefix of the accounts of the proof data in their
    order, and all of them, each once, when it returns normally. *)
Theorem account_proofs_follow_proof_data
    (E : Env) (L : Lib) (options : FraudProverOptions)
    (st sm : string) (accounts : list AccountStateProof) (i : Z) (s : St E) :
  let r := _proveAccountStates E L options st sm accounts i s in
  let new := newSubmissions s (snd r) in
  Forall (proofOrDeployment st (deployGasLimit options)) new /\
  provenAccounts new `prefix_of` accountProofsOf L accounts /\
  (fst r = Ret tt -> provenAccounts new = accountProofsOf L accounts).
Proof.
  intros r new. unfold new, r. clear new r.
  destruct (proveAccountStates_proves E L options st sm accounts i s)
    as (l & El & Fl & Pl & Rl).
  rewrite (newSubmissions_app _ _ _ El). auto.
Qed.

Lemma account_proofs_follow_proof_data_witness :
  let s := startOf demoEnv demoWorld0 2 in
  let r := _proveAccountStates demoEnv listLib demoOptions "0x57" "0x53"
             [accountA; accountB] 2 s in
  let new := newSubmissions s (snd r) in
  Forall (proofOrDeployment "0x57" (deployGasLimit demoOptions)) new /\
  provenAccounts new `prefix_of` accountProofsOf listLib [accountA; accountB] /\
  (fst r = Ret tt -> provenAccounts new = accountProofsOf listLib [accountA; accountB]).
Proof.
  apply (account_proofs_follow_proof_data demoEnv listLib demoOptions "0x57" "0x53"
           [accountA; accountB] 2 (startOf demoEnv demoWorld0 2)).
Defined.

(** *** A whole dispute *)

Section DisputeShape.

Context (E : Env) (L : Lib) (options : FraudProverOptions).

Lemma proofStep_middle x : proofStep x -> middleStep x.
Proof. unfold proofStep, middleStep. destruct x; cbn; intros H; auto; discriminate. Qed.

Lemma commitStep_middle x : commitStep x -> middleStep x.
Proof. unfold commitStep, middleStep. destruct x; cbn; intros H; auto; discriminate. Qed.

Lemma preExecution_middle st sm (p : FraudProofData L) i :
  emits E middleStep (_start_preExecution E L options st sm p i).
Proof.
  unfold _start_preExecution, phaseCompletedByOther. repeat emits_step.
  - eapply emits_weaken; [apply proofStep_middle | apply proveAccountStates_steps].
  - eapply emits_weaken;
      [apply proofStep_middle | apply proveContractStorageStates_steps].
Qed.

Lemma postExecution_middle fuel st sm (p : FraudProofData L) :
  emits E middleStep (_start_postExecution E L options fuel st sm p).
Proof.
  unfold _start_postExecution, phaseCompletedByOther. repeat emits_step.
  - eapply emits_weaken; [|apply updateContractStorageStates_emits].
    intros x Hx. apply commitStep_middle, storageCommit_commitStep, Hx.
  - eapply emits_weaken; [|apply updateAccountStates_emits].
    intros x Hx. apply commitStep_middle, accountCommit_commitStep, Hx.
Qed.

Lemma tailed_then_idle {A B} (P : Submission -> Prop) (Q : list Submission -> Prop)
    (m : M E A) (k : A -> M E B) :
  tailed E P Q m -> (forall a s, sent (snd (k a s)) = sent s) ->
  tailed E P Q (bind E m k).
Proof.
  intros Hm Hk s. unfold bind. destruct (Hm s) as (u & v & Euv & Fu & Qv).
  destruct (m s) as [[a| e |] s1]; cbn [snd] in *.
  - exists u, v. rewrite Hk. auto.
  - exists u, v. auto.
  - exists u, v. auto.
Qed.

Lemma complete_tailed st (p : FraudProofData L) :
  tailed E middleStep
    (atMostOnly (FinalizeFraudVerification (preStateRootProof p) (postStateRootProof p)
                   (hashOvmTransaction L (transaction (transactionProof p)))))
    (_start_complete E L st p).
Proof.
  unfold _start_complete.
  apply tailed_after; [left; reflexivity | emits_auto | intros ph].
  destruct (phase_eqb ph COMPLETE).
  - apply tailed_catch.
    + intros e s'. destruct (_ || _); reflexivity.
    + unfold _finalizeFraudVerification. apply tailed_submit.
  - apply tailed_idle; [left; reflexivity | reflexivity].
Qed.

Lemma initialize_submits (pre : StateRootBatchProof) (txp : TransactionBatchProof)
    (s : St E) :
  exists first,
    sent (snd (_initializeFraudVerification E L pre txp s)) = sent s ++ first /\
    atMostOnly (InitializeFraudVerification pre txp) first.
Proof.
  unfold _initializeFraudVerification, _getStateTransitioner. unfold bind at 1.
  pose proof (call_sent E (FV_getStateTransitioner (stateRoot pre)
                             (hashOvmTransaction L (transaction txp))) s) as Hc.
  cbn [logged] in Hc. rewrite app_nil_r in Hc.
  destruct (call E (FV_getStateTransitioner _ _) s) as [[addr| e |] s1]; cbn [snd] in *.
  2,3: exists []; rewrite Hc, app_nil_r; split; [reflexivity | left; reflexivity].
  destruct (negb _).
  - exists []. cbn. rewrite Hc, app_nil_r. split; [reflexivity | left; reflexivity].
  - exists [InitializeFraudVerification pre txp]. unfold bind, ret.
    pose proof (call_sent E (Submit (InitializeFraudVerification pre txp)) s1) as Hi.
    cbn [logged] in Hi.
    destruct (call E (Submit _) s1) as [[r| e |] s2]; cbn [snd] in *;
      rewrite Hi, Hc; (split; [reflexivity | right; reflexivity]).
Qed.

Lemma after_initialize_tailed fuel i (p : FraudProofData L) :
  tailed E middleStep
    (atMostOnly (FinalizeFraudVerification (preStateRootProof p) (postStateRootProof p)
                   (hashOvmTransaction L (transaction (transactionProof p)))))
    (bind E (call E (L1_getStateRoot (i - 1)))
       (fun preStateRoot =>
          bind E (_getFraudProofContracts E L preStateRoot
                    (transaction (transactionProof p)))
            (fun contracts =>
               bind E (_start_preExecution E L options (fst contracts) (snd contracts) p i)
                 (fun _ =>
                    bind E (_start_postExecution E L options fuel
                              (fst contracts) (snd contracts) p)
                      (fun _ =>
                         bind E (_start_complete E L (fst contracts) p)
                           (fun _ => ret E p)))))).
Proof.
  apply tailed_after; [left; reflexivity | emits_auto | intros preStateRoot].
  apply tailed_after;
    [left; reflexivity
    | unfold _getFraudProofContracts, _getStateTransitioner; emits_auto
    | intros contracts].
  apply tailed_after; [left; reflexivity | apply preExecution_middle | intros _].
  apply tailed_after; [left; reflexivity | apply postExecution_middle | intros _].
  apply tailed_then_idle; [apply complete_tailed | reflexivity].
Qed.

End DisputeShape.

(** X11.  Whatever the collaborators answer, the submissions of one dispute
    are: at most one [initializeFraudVerification], carrying the pre-state
    root proof and the transaction proof of the assembled proof data; then
    submissions that neither initialize nor finalize; then at most one
    [finalizeFraudVerification], carrying the pre- and post-state root proofs
    and the hash of the disputed transaction.  Nothing is submitted before
    the initialization or after the finalization. *)
Theorem dispute_opens_and_closes_once
    (E : Env) (L : Lib) (options : FraudProverOptions) (fuel : nat) (i : Z) (s : St E) :
  newSubmissions s (snd (_start_dispute E L options fuel i s)) = [] \/
  exists (p : FraudProofData L) (s1 : St E) first middle last,
    _getFraudProofData E L options i s = (Ret p, s1) /\
    newSubmissions s (snd (_start_dispute E L options fuel i s))
      = first ++ middle ++ last /\
    atMostOnly (InitializeFraudVerification (preStateRootProof p) (transactionProof p))
      first /\
    Forall middleStep middle /\
    atMostOnly (FinalizeFraudVerification (preStateRootProof p) (postStateRootProof p)
                  (hashOvmTransaction L (transaction (transactionProof p)))) last.
Proof.
  pose proof (emits_none_sent E _ (getFraudProofData_emits E L options _ i) s) as Hdata.
  destruct (_getFraudProofData E L options i s) as [[p| e |] s1] eqn:Hp; cbn [snd] in Hdata.
  2,3: left; unfold _start_dispute; unfold bind at 1; rewrite Hp; cbn [snd];
       unfold newSubmissions; rewrite Hdata; apply drop_all.
  right. exists p, s1.
  assert (Hrun : _start_dispute E L options fuel i s =
                 bind E (_initializeFraudVerification E L (preStateRootProof p)
                           (transactionProof p))
                   (fun _ =>
                      bind E (call E (L1_getStateRoot (i - 1)))
                        (fun preStateRoot =>
                           bind E (_getFraudProofContracts E L preStateRoot
                                     (transaction (transactionProof p)))
                             (fun contracts =>
                                bind E (_start_preExecution E L options
                                          (fst contracts) (snd contracts) p i)
                                  (fun _ =>
                                     bind E (_start_postExecution E L options fuel
                                               (fst contracts) (snd contracts) p)
                                       (fun _ =>
                                          bind E (_start_complete E L (fst contracts) p)
                                            (fun _ => ret E p)))))) s1).
  { unfold _start_dispute. unfold bind at 1. rewrite Hp. reflexivity. }
  rewrite Hrun. clear Hrun.
  unfold bind at 1.
  destruct (initialize_submits E L (preStateRootProof p) (transactionProof p) s1)
    as (first & Hfirst & Qfirst).
  destruct (_initializeFraudVerification E L _ _ s1) as [[[]| e |] s2]; cbn [snd] in Hfirst.
  2,3: exists first, [], []; cbn [snd]; split; [reflexivity|];
       split; [apply newSubmissions_app; rewrite Hfirst, Hdata, !app_nil_r; reflexivity|];
       repeat split; auto; left; reflexivity.
  destruct (after_initialize_tailed E L options fuel i p s2) as (u & v & Huv & Fu & Qv).
  exists first, u, v. split; [reflexivity|].
  split; [|auto].
  apply newSubmissions_app. rewrite Huv, Hfirst, Hdata.
  rewrite <- !app_assoc. reflexivity.
Qed.

(** *** The commit loops commit what the proof data holds *)

Section CommitTargets.

Context (E : Env) (L : Lib) (options : FraudProverOptions).

Lemma emits_bind_post {A B} (P : Submission -> Prop) (R : A -> Prop)
    (m : M E A) (k : A -> M E B) :
  emits E P m -> (forall s a s', m s = (Ret a, s') -> R a) ->
  (forall a, R a -> emits E P (k a)) -> emits E P (bind E m k).
Proof.
  intros Hm HR Hk s. unfold bind. destruct (Hm s) as (l1 & E1 & F1).
  destruct (m s) as [[a| e |] s1] eqn:Hms; cbn [snd] in *.
  - destruct (Hk a (HR _ _ _ Hms) s1) as (l2 & E2 & F2). exists (l1 ++ l2).
    rewrite E2, E1, app_assoc. split; [reflexivity | apply Forall_app; auto].
  - exists l1; auto.
  - exists l1; auto.
Qed.

Lemma findNextUncommittedAccount_member sm accounts : forall (s s' : St E) a,
  findNextUncommittedAccount E sm accounts s = (Ret (Some a), s') -> a ∈ accounts.
Proof.
  induction accounts as [|x rest IH]; intros s s' a; cbn [findNextUncommittedAccount].
  - discriminate.
  - unfold bind at 1.
    destruct (call E (SM_wasAccountCommitted sm (address x)) s) as [[c| e |] s1];
      try discriminate.
    destruct (negb c).
    + unfold bind at 1.
      destruct (call E (SM_wasAccountChanged sm (address x)) s1) as [[ch| e |] s2];
        try discriminate.
      destruct ch.
      * unfold ret. intros H; inversion H; subst. apply list_elem_of_here.
      * intros H. apply list_elem_of_further. eapply IH; exact H.
    + intros H. apply list_elem_of_further. eapply IH; exact H.
Qed.

Lemma findNextUncommittedSlot_member sm addr slots : forall (s s' : St E) slot,
  findNextUncommittedSlot E sm addr slots s = (Ret (Some slot), s') -> slot ∈ slots.
Proof.
  induction slots as [|x rest IH]; intros s s' slot; cbn [findNextUncommittedSlot].
  - discriminate.
  - unfold bind at 1.
    destruct (call E (SM_wasContractStorageCommitted sm addr (key x)) s)
      as [[c| e |] s1]; try discriminate.
    destruct (negb c).
    + unfold bind at 1.
      destruct (call E (SM_wasContractStorageChanged sm addr (key x)) s1)
        as [[ch| e |] s2]; try discriminate.
      destruct ch.
      * unfold ret. intros H; inversion H; subst. apply list_elem_of_here.
      * intros H. apply list_elem_of_further. eapply IH; exact H.
    + intros H. apply list_elem_of_further. eapply IH; exact H.
Qed.

Lemma updateAccountStates_body_targets st sm accounts trie :
  emits E (accountCommitOf st (deployGasLimit options) accounts)
    (_updateAccountStates_body E L options st sm accounts trie).
Proof.
  unfold _updateAccountStates_body.
  apply emits_bind; [emits_auto | intros events].
  apply emits_bind; [apply putCommittedAccounts_emits | intros trie'].
  apply (emits_bind_post _ (fun o => forall a, o = Some a -> a ∈ accounts)).
  - apply findNextUncommittedAccount_emits.
  - intros s [a|] s' Hfind b Hb; [|discriminate]. inversion Hb; subst.
    eapply findNextUncommittedAccount_member; exact Hfind.
  - intros [next|] Hnext; [|emits_auto].
    specialize (Hnext next eq_refl).
    apply emits_bind; [emits_auto | intros nodes].
    apply emits_bind; [emits_auto | intros acc].
    apply emits_bind; [|intros _; emits_auto].
    unfold tryCommitContractState. apply emits_catch.
    + apply emits_bind; [|intros _; emits_auto].
      apply emits_call. cbn [logged]. constructor; [|constructor].
      exists next, (toHexString L (rlp_encode L nodes)). split; [exact Hnext | reflexivity].
    + intros e. destruct (accountCommitInvalidated e); emits_auto.
Qed.

Lemma updateAccountStates_targets fuel st sm accounts : forall trie,
  emits E (accountCommitOf st (deployGasLimit options) accounts)
    (_updateAccountStates E L options fuel st sm accounts trie).
Proof.
  induction fuel as [|fuel IH]; intros trie; cbn [_updateAccountStates].
  - emits_auto.
  - apply emits_bind; [emits_auto | intros n].
    destruct (0 <? n)%N; [|emits_auto].
    apply emits_bind; [apply updateAccountStates_body_targets | intros [trie'|]];
      [apply IH | emits_auto].
Qed.

Lemma commitStorageSlots_targets st sm all tries : forall accounts,
  (forall a, a ∈ accounts -> a ∈ all) ->
  emits E (slotCommitOf st (deployGasLimit options) all)
    (commitStorageSlots E L options st sm accounts tries).
Proof.
  induction accounts as [|x rest IH]; intros Hsub; cbn [commitStorageSlots].
  - emits_auto.
  - assert (Hrest : forall a, a ∈ rest -> a ∈ all)
      by (intros a Ha; apply Hsub, list_elem_of_further, Ha).
    assert (Hx : x ∈ all) by (apply Hsub, list_elem_of_here).
    apply (emits_bind_post _ (fun o => forall slot, o = Some slot -> slot ∈ storageProof x)).
    + apply findNextUncommittedSlot_emits.
    + intros s [slot|] s' Hfind b Hb; [|discriminate]. inversion Hb; subst.
      eapply findNextUncommittedSlot_member; exact Hfind.
    + intros [next|] Hnext; [|apply IH; exact Hrest].
      specialize (Hnext next eq_refl).
      apply emits_bind; [destruct (tries !! address x); emits_auto | intros nodes].
      apply emits_bind; [emits_auto | intros v].
      apply emits_bind; [|intros _; apply IH; exact Hrest].
      unfold tryCommitStorageSlot. apply emits_catch.
      * apply emits_bind; [|intros _; emits_auto].
        apply emits_call. cbn [logged]. constructor; [|constructor].
        exists x, next, (toHexString L (rlp_encode L nodes)). auto.
      * intros e. destruct (storageCommitInvalidated e); emits_auto.
Qed.

Lemma updateContractStorageStates_targets fuel st sm accounts : forall tries,
  emits E (slotCommitOf st (deployGasLimit options) accounts)
    (_updateContractStorageStates E L options fuel st sm accounts tries).
Proof.
  induction fuel as [|fuel IH]; intros tries; cbn [_updateContractStorageStates].
  - emits_auto.
  - apply emits_bind; [emits_auto | intros n].
    destruct (0 <? n)%N; [|emits_auto].
    apply emits_bind; [emits_auto | intros events].
    apply emits_bind; [apply syncStorageTries_emits | intros tries'].
    apply emits_bind; [apply commitStorageSlots_targets; auto | intros _; apply IH].
Qed.

End CommitTargets.

(** X12.  Whatever the collaborators answer, every submission of the account
    loop is a [commitContractState] on the given transitioner, with gas limit
    [deployGasLimit], for the address of an account of the proof data: the
    loop never commits an account it holds no witness for. *)
Theorem account_loop_commits_proof_data
    (E : Env) (L : Lib) (options : FraudProverOptions) (fuel : nat) (st sm : string)
    (accounts : list AccountStateProof) (trie : Trie L) (s : St E) :
  Forall (accountCommitOf st (deployGasLimit options) accounts)
    (newSubmissions s
       (snd (_updateAccountStates E L options fuel st sm accounts trie s))).
Proof.
  destruct (updateAccountStates_targets E L options fuel st sm accounts trie s)
    as (l & El & Fl).
  rewrite (newSubmissions_app _ _ _ El). exact Fl.
Qed.

(** X13.  Whatever the collaborators answer, every submission of the storage
    loop is a [commitStorageSlot] on the given transitioner, with gas limit
    [deployGasLimit], for the key of a slot that the proof data lists under
    the committed address. *)
Theorem storage_loop_commits_proof_data
    (E : Env) (L : Lib) (options : FraudProverOptions) (fuel : nat) (st sm : string)
    (accounts : list AccountStateProof) (tries : gmap string (Trie L)) (s : St E) :
  Forall (slotCommitOf st (deployGasLimit options) accounts)
    (newSubmissions s
       (snd (_updateContractStorageStates E L options fuel st sm accounts tries s))).
Proof.
  destruct (updateContractStorageStates_targets E L options fuel st sm accounts tries s)
    as (l & El & Fl).
  rewrite (newSubmissions_app _ _ _ El). exact Fl.
Qed.

(** *** Searching and matching in the commit loops *)



Lemma lower_ascii_idempotent c : lower_ascii (lower_ascii c) = lower_ascii c.
Proof. destruct c as [[] [] [] [] [] [] [] []]; reflexivity. Qed.

Lemma toLowerCase_idempotent s : toLowerCase (toLowerCase s) = toLowerCase s.
Proof.
  induction s as [|c s IH]; cbn; [reflexivity|].
  rewrite lower_ascii_idempotent, IH. reflexivity.
Qed.

(** X15.  The accounts taken as committed are the accounts of the proof data,
    in their order, whose address equals the address of some
    [AccountCommitted] event up to the case of the letters; writing the
    addresses of the events in lower case changes nothing, and without
    events no account is taken as committed. *)
Theorem committed_accounts_match_ignoring_case
    (events : list AccountCommittedEvent) (accounts : list AccountStateProof) :
  (forall a, a ∈ committedAccountsOf events accounts <->
             a ∈ accounts /\
             exists event, event ∈ events /\
                           toLowerCase (ace_address event) = toLowerCase (address a)) /\
  committedAccountsOf (map lowerEvent events) accounts = committedAccountsOf events accounts /\
  committedAccountsOf events accounts `sublist_of` accounts /\
  committedAccountsOf [] accounts = [].
Proof.
  split; [|split; [|split]].
  - intros a. unfold committedAccountsOf.
    rewrite list_elem_of_In, filter_In, existsb_exists, <- list_elem_of_In.
    split; intros [Ha (event & Hev & Heq)]; (split; [exact Ha|]); exists event.
    + apply list_elem_of_In in Hev. apply String.eqb_eq in Heq. auto.
    + rewrite list_elem_of_In in Hev. split; [exact Hev | apply String.eqb_eq, Heq].
  - unfold committedAccountsOf. apply filter_ext. intros a.
    induction events as [|event rest IH]; cbn [map existsb]; [reflexivity|].
    cbn [lowerEvent ace_address]. rewrite toLowerCase_idempotent, IH. reflexivity.
  - unfold committedAccountsOf. induction accounts as [|a rest IH]; cbn [List.filter].
    + constructor.
    + destruct (existsb _ events); [constructor | apply sublist_cons]; exact IH.
  - unfold committedAccountsOf. induction accounts as [|a rest IH]; cbn; auto.
Qed.

(** *** Connecting, in [_init] *)

Section Connecting.

Context (E : Env) (detectNetwork : M E unit) (failure : string).

Lemma connectLoop_throws remaining : forall i (s s' : St E) e,
  connectLoop E detectNetwork failure i remaining s = (Throw e, s') -> e = failure.
Proof.
  induction remaining as [|r IH]; intros i s s' e; cbn [connectLoop].
  - discriminate.
  - unfold bind at 1. unfold catch. unfold bind at 1.
    destruct (detectNetwork s) as [[[]| e0 |] s1].
    + cbn. discriminate.
    + destruct (i <? 9)%nat.
      * cbn [ret]. apply IH.
      * unfold throw. intros H; inversion H; reflexivity.
    + discriminate.
Qed.

Lemma connectLoop_exhausted k : forall i (s s' : St E),
  (i + k = 10)%nat -> (1 <= k)%nat -> failsInARow E detectNetwork k s s' ->
  connectLoop E detectNetwork failure i k s = (Throw failure, s').
Proof.
  induction k as [|k IH]; intros i s s' Hik Hk Hfail; [lia|].
  cbn [failsInARow] in Hfail. destruct Hfail as (e & s1 & Hd & Hrest).
  cbn [connectLoop]. unfold bind at 1. unfold catch. unfold bind at 1. rewrite Hd.
  destruct (i <? 9)%nat eqn:Hi.
  - cbn [ret]. apply Nat.ltb_lt in Hi. apply IH; [lia | lia | exact Hrest].
  - apply Nat.ltb_ge in Hi. assert (k = 0)%nat by lia. subst k.
    cbn [failsInARow] in Hrest. subst s'. reflexivity.
Qed.

Lemma connectLoop_connects k : forall i r (s s1 s2 : St E),
  (i + r = 10)%nat -> (k < r)%nat ->
  failsInARow E detectNetwork k s s1 -> detectNetwork s1 = (Ret tt, s2) ->
  connectLoop E detectNetwork failure i r s = (Ret tt, s2).
Proof.
  induction k as [|k IH]; intros i r s s1 s2 Hir Hk Hfail Hok.
  - cbn [failsInARow] in Hfail. subst s1. destruct r as [|r]; [lia|].
    cbn [connectLoop]. unfold bind at 1. unfold catch. unfold bind at 1. rewrite Hok.
    reflexivity.
  - cbn [failsInARow] in Hfail. destruct Hfail as (e & s0 & Hd & Hrest).
    destruct r as [|r]; [lia|].
    cbn [connectLoop]. unfold bind at 1. unfold catch. unfold bind at 1. rewrite Hd.
    assert (Hi : (i <? 9)%nat = true) by (apply Nat.ltb_lt; lia).
    rewrite Hi. cbn [ret]. apply (IH (S i) r s0 s1 s2); [lia | lia | exact Hrest | exact Hok].
Qed.

End Connecting.

(** X16.  Each connection loop of [_init] makes at most ten attempts.  If the
    first [k < 10] attempts fail and the next one succeeds, the loop returns
    after that attempt; if ten attempts in a row fail, it raises its own
    "Unable to connect" error after the tenth; and whatever the attempts
    raise, no other error ever leaves the loop. *)
Theorem connection_is_tried_ten_times
    (E : Env) (detectNetwork : M E unit) (failure : string) (s : St E) :
  (forall k s1 s2,
     (k < 10)%nat -> failsInARow E detectNetwork k s s1 ->
     detectNetwork s1 = (Ret tt, s2) ->
     connectLoop E detectNetwork failure 0 10 s = (Ret tt, s2)) /\
  (forall s',
     failsInARow E detectNetwork 10 s s' ->
     connectLoop E detectNetwork failure 0 10 s = (Throw failure, s')) /\
  (forall e s',
     connectLoop E detectNetwork failure 0 10 s = (Throw e, s') -> e = failure).
Proof.
  split; [|split].
  - intros k s1 s2 Hk Hfail Hok.
    apply (connectLoop_connects E detectNetwork failure k 0 10 s s1 s2); auto.
  - intros s' Hfail. apply connectLoop_exhausted; auto; lia.
  - intros e s' Hrun. eapply connectLoop_throws; exact Hrun.
Qed.

Lemma connection_is_tried_ten_times_witness :
  connectLoop flakyEnv flakyDetect l1Unreachable 0 10
    {| world := 3%nat : W flakyEnv; nextUnverifiedStateRoot := 0; sent := [] |}
  = (Ret tt, {| world := 0%nat : W flakyEnv; nextUnverifiedStateRoot := 0; sent := [] |}).
Proof.
  apply (proj1 (connection_is_tried_ten_times flakyEnv flakyDetect l1Unreachable
                  {| world := 3%nat : W flakyEnv; nextUnverifiedStateRoot := 0;
                     sent := [] |})
           3%nat
           {| world := 0%nat : W flakyEnv; nextUnverifiedStateRoot := 0; sent := [] |}).
  - lia.
  - cbn [failsInARow]. do 3 (eexists; eexists; split; [reflexivity|]). reflexivity.
  - reflexivity.
Defined.

(** *** The entry point *)




(** *** Reading and building *)

(** X18.  Whatever the collaborators answer, the witness assembler and the
    loader of the fraud-proof contracts only read: they submit no transaction
    and leave the cursor where it is. *)
Theorem assembling_and_loading_only_read
    (E : Env) (L : Lib) (options : FraudProverOptions)
    (i : Z) (preStateRoot : string) (tx : OvmTransaction) (s : St E) :
  let s1 := snd (_getFraudProofData E L options i s) in
  let s2 := snd (_getFraudProofContracts E L preStateRoot tx s) in
  sent s1 = sent s /\ nextUnverifiedStateRoot s1 = nextUnverifiedStateRoot s /\
  sent s2 = sent s /\ nextUnverifiedStateRoot s2 = nextUnverifiedStateRoot s.
Proof.
  intros s1 s2. unfold s1, s2. clear s1 s2. repeat split.
  - apply emits_none_sent, getFraudProofData_emits.
  - apply getFraudProofData_keeps.
  - apply emits_none_sent.
    unfold _getFraudProofContracts, _getStateTransitioner. emits_auto.
  - assert (Hk : keepsCursor E (_getFraudProofContracts E L preStateRoot tx))
      by (unfold _getFraudProofContracts, _getStateTransitioner; keeps_auto).
    apply Hk.
Qed.

Lemma makeAccountTries_from_dom (E : Env) (L : Lib) accounts :
  forall (tries0 tries : gmap string (Trie L)) (s s' : St E),
  _makeAccountTries_from E L accounts tries0 s = (Ret tries, s') ->
  dom tries = dom tries0 ∪ list_to_set (map address accounts).
Proof.
  induction accounts as [|a rest IH]; intros tries0 tries s s'; cbn [_makeAccountTries_from].
  - unfold ret. intros H; inversion H; subst. cbn [map list_to_set].
    symmetry. apply union_empty_r_L.
  - unfold bind at 1, lift.
    destruct (makeTrieFromProofs L (map proof (storageProof a))) as [t| e |];
      try discriminate.
    intros Hrun. apply IH in Hrun. rewrite Hrun, dom_insert_L. cbn [map list_to_set].
    rewrite (union_comm_L {[address a]} (dom tries0)), <- union_assoc_L. reflexivity.
Qed.

Lemma putCommittedSlots_dom (E : Env) (L : Lib) sm addr slots :
  forall (tries tries' : gmap string (Trie L)) (s s' : St E),
  putCommittedSlots E L sm addr slots tries s = (Ret tries', s') ->
  dom tries' = dom tries.
Proof.
  induction slots as [|sp rest IH]; intros tries tries' s s'; cbn [putCommittedSlots].
  - unfold ret. intros H; inversion H; subst. reflexivity.
  - unfold bind at 1.
    destruct (call E (SM_getContractStorage sm addr (key sp)) s) as [[v| e |] s1];
      try discriminate.
    unfold bind at 1. unfold trieOf.
    destruct (tries !! addr) as [t|] eqn:Ht; [|discriminate].
    cbn [ret]. unfold bind at 1. unfold lift.
    destruct (trie_put L t _ _) as [t'| e |]; try discriminate.
    intros Hrun. apply IH in Hrun. rewrite Hrun, dom_insert_L.
    apply (elem_of_dom_2 (D := gset string)) in Ht.
    apply subseteq_union_1_L, singleton_subseteq_l, Ht.
Qed.

Lemma syncStorageTries_dom (E : Env) (L : Lib) sm events accounts :
  forall (tries tries' : gmap string (Trie L)) (s s' : St E),
  syncStorageTries E L sm events accounts tries s = (Ret tries', s') ->
  dom tries' = dom tries.
Proof.
  induction accounts as [|a rest IH]; intros tries tries' s s'; cbn [syncStorageTries].
  - unfold ret. intros H; inversion H; subst. reflexivity.
  - unfold bind at 1.
    destruct (putCommittedSlots E L sm (address a) _ tries s) as [[t1| e |] s1] eqn:Hput;
      try discriminate.
    intros Hrun. apply IH in Hrun. rewrite Hrun.
    eapply putCommittedSlots_dom; exact Hput.
Qed.

(** X19.  The storage tries built by the witness assembler have exactly the
    addresses of the accounts of the state-diff proof as keys, and bringing
    them up to date with the committed slots neither adds nor removes a key:
    every account of the proof data keeps its storage trie through the
    storage loop. *)
Theorem storage_tries_keep_their_keys
    (E : Env) (L : Lib) (sm : string) (p : StateDiffProof)
    (events : list ContractStorageCommittedEvent) (accounts : list AccountStateProof)
    (s : St E) :
  (forall tries s',
     _makeAccountTries E L p s = (Ret tries, s') ->
     dom tries = list_to_set (map address (accountStateProofs p))) /\
  (forall tries tries' s',
     syncStorageTries E L sm events accounts tries s = (Ret tries', s') ->
     dom tries' = dom tries).
Proof.
  split.
  - intros tries s' Hrun. unfold _makeAccountTries in Hrun.
    apply makeAccountTries_from_dom in Hrun. rewrite Hrun, dom_empty_L.
    apply union_empty_l_L.
  - intros tries tries' s' Hrun. eapply syncStorageTries_dom; exact Hrun.
Qed.

Lemma storage_tries_keep_their_keys_witness :
  dom (storageTries demoProofData) = list_to_set (map address (accountStateProofs demoDiff)).
Proof.
  apply (proj1 (storage_tries_keep_their_keys demoEnv listLib "0x53" demoDiff [] []
                  (startOf demoEnv demoWorld0 2))
           (storageTries demoProofData) (startOf demoEnv demoWorld0 2)).
  vm_compute. reflexivity.
Defined.

(** *** One pass of the storage loop *)

Section StoragePass.

Context (E : Env) (L : Lib) (options : FraudProverOptions).

Lemma tryCommitStorageSlot_sent st addr slotKey inclusionProof (s : St E) :
  sent (snd (tryCommitStorageSlot E options st addr slotKey inclusionProof s)) =
  sent s ++ [CommitStorageSlot st addr slotKey inclusionProof (deployGasLimit options)].
Proof.
  unfold tryCommitStorageSlot. rewrite catch_sent.
  - unfold bind, ret.
    pose proof (call_sent E (Submit (CommitStorageSlot st addr slotKey inclusionProof
                                       (deployGasLimit options))) s) as Hc.
    cbn [logged] in Hc.
    destruct (call E (Submit _) s) as [[r| e |] s1]; cbn [snd] in *; exact Hc.
  - intros e s'. destruct (storageCommitInvalidated e); reflexivity.
Qed.

Lemma commitStorageSlots_pass st sm tries accounts : forall s : St E,
  exists l,
    sent (snd (commitStorageSlots E L options st sm accounts tries s)) = sent s ++ l /\
    slotCommitAddresses l `sublist_of` map address accounts.
Proof.
  induction accounts as [|x rest IH]; intros s; cbn [commitStorageSlots map].
  - exists []. cbn. rewrite app_nil_r. split; [reflexivity | constructor].
  - assert (Hcont : forall next nodes (s1 : St E),
              exists l,
                sent (snd (bind E (call E (SM_getContractStorage sm (address x) (key next)))
                             (fun _ =>
                                bind E (tryCommitStorageSlot E options st (address x)
                                          (key next) (toHexString L (rlp_encode L nodes)))
                                  (fun _ => commitStorageSlots E L options st sm rest tries))
                             s1))
                = sent s1 ++ l /\
                slotCommitAddresses l `sublist_of` address x :: map address rest).
    { intros next nodes s1. unfold bind at 1.
      pose proof (call_sent E (SM_getContractStorage sm (address x) (key next)) s1) as Hv.
      cbn [logged] in Hv. rewrite app_nil_r in Hv.
      destruct (call E (SM_getContractStorage sm (address x) (key next)) s1)
        as [[v| e |] s3]; cbn [snd] in Hv.
      2,3: exists []; cbn [snd]; rewrite Hv, app_nil_r;
           split; [reflexivity | apply sublist_nil_l].
      unfold bind at 1.
      pose proof (tryCommitStorageSlot_sent st (address x) (key next)
                    (toHexString L (rlp_encode L nodes)) s3) as Hc.
      destruct (tryCommitStorageSlot E options st (address x) (key next) _ s3)
        as [[[]| e |] s4]; cbn [snd] in Hc.
      - destruct (IH s4) as (l & El & Sl).
        exists (CommitStorageSlot st (address x) (key next)
                  (toHexString L (rlp_encode L nodes)) (deployGasLimit options) :: l).
        rewrite El, Hc, Hv, <- app_assoc. split; [reflexivity|].
        cbn. apply sublist_skip. exact Sl.
      - eexists [_]. cbn [snd]. rewrite Hc, Hv. split; [reflexivity|].
        cbn. apply sublist_skip, sublist_nil_l.
      - eexists [_]. cbn [snd]. rewrite Hc, Hv. split; [reflexivity|].
        cbn. apply sublist_skip, sublist_nil_l. }
    unfold bind at 1.
    pose proof (emits_none_sent E _
                  (findNextUncommittedSlot_emits E _ sm (address x) (storageProof x)) s)
      as Hfind.
    destruct (findNextUncommittedSlot E sm (address x) (storageProof x) s)
      as [[[next|]| e |] s1]; cbn [snd] in Hfind.
    + unfold bind at 1. destruct (tries !! address x) as [t|].
      * unfold lift at 1.
        destruct (createProof L t (fromHexString L (keccak256 L (key next))))
          as [nodes| e |].
        -- destruct (Hcont next nodes s1) as (l & El & Sl). exists l.
           rewrite El, Hfind. auto.
        -- exists []. cbn [snd]. rewrite Hfind, app_nil_r.
           split; [reflexivity | apply sublist_nil_l].
        -- exists []. cbn [snd]. rewrite Hfind, app_nil_r.
           split; [reflexivity | apply sublist_nil_l].
      * exists []. cbn [snd throw]. rewrite Hfind, app_nil_r.
        split; [reflexivity | apply sublist_nil_l].
    + destruct (IH s1) as (l & El & Sl). exists l. rewrite El, Hfind.
      split; [reflexivity | apply sublist_cons; exact Sl].
    + exists []. cbn [snd]. rewrite Hfind, app_nil_r.
      split; [reflexivity | apply sublist_nil_l].
    + exists []. cbn [snd]. rewrite Hfind, app_nil_r.
      split; [reflexivity | apply sublist_nil_l].
Qed.

End StoragePass.

(** X20.  In one pass of the storage loop over the accounts, the addresses
    for which a slot is committed follow the order of the proof data and no
    account is served twice: at most one [commitStorageSlot] per account and
    pass, the others of its slots wait for the next pass and its fresh read
    of the events. *)
Theorem storage_pass_commits_once_per_account
    (E : Env) (L : Lib) (options : FraudProverOptions) (st sm : string)
    (accounts : list AccountStateProof) (tries : gmap string (Trie L)) (s : St E) :
  let new := newSubmissions s
               (snd (commitStorageSlots E L options st sm accounts tries s)) in
  slotCommitAddresses new `sublist_of` map address accounts /\
  (length new <= length accounts)%nat.
Proof.
  intros new. unfold new. clear new.
  destruct (commitStorageSlots_pass E L options st sm tries accounts s) as (l & El & Sl).
  rewrite (newSubmissions_app _ _ _ El). split; [exact Sl|].
  destruct (commitStorageSlots_targets E L options st sm accounts tries accounts
              (fun a Ha => Ha) s) as (l' & El' & Fl').
  assert (l' = l) by (rewrite El in El'; eapply app_inv_head; symmetry; exact El').
  subst l'.
  assert (Hlen : length (slotCommitAddresses l) = length l).
  { clear El Sl El'. induction Fl' as [|x l Hx _ IH]; [reflexivity|].
    destruct Hx as (a & slot & pr & _ & _ & ->). cbn. rewrite <- IH. reflexivity. }
  rewrite <- Hlen, <- (length_map address accounts).
  apply sublist_length. exact Sl.
Qed.

(** *** Where a finished dispute leaves the cursor *)

Lemma bind_ret_inv (E : Env) {A B} (m : M E A) (k : A -> M E B) (s s' : St E) (b : B) :
  bind E m k s = (Ret b, s') ->
  exists a s1, m s = (Ret a, s1) /\ k a s1 = (Ret b, s').
Proof.
  unfold bind. destruct (m s) as [[a| e |] s1]; try discriminate.
  intros H. exists a, s1. auto.
Qed.

Lemma getFraudProofData_pre (E : Env) (L : Lib) (options : FraudProverOptions)
    (i : Z) (s s' : St E) (p : FraudProofData L) :
  _getFraudProofData E L options i s = (Ret p, s') ->
  exists w1,
    perform E (L1_getStateRootBatchProof (i - 1)) (world s)
    = (Ret (preStateRootProof p), w1).
Proof.
  unfold _getFraudProofData. intros H.
  apply bind_ret_inv in H. destruct H as (pre & s1 & Hpre & H).
  apply bind_ret_inv in H. destruct H as (post & s2 & _ & H).
  apply bind_ret_inv in H. destruct H as (txp & s3 & _ & H).
  apply bind_ret_inv in H. destruct H as (sdp & s4 & _ & H).
  apply bind_ret_inv in H. destruct H as (trie & s5 & _ & H).
  apply bind_ret_inv in H. destruct H as (tries & s6 & _ & H).
  unfold ret in H. inversion H; subst; clear H. cbn [preStateRootProof].
  unfold call in Hpre.
  destruct (perform E (L1_getStateRootBatchProof (i - 1)) (world s)) as [r w1].
  inversion Hpre; subst. exists w1. reflexivity.
Qed.

Lemma start_dispute_returns_data (E : Env) (L : Lib) (options : FraudProverOptions)
    (fuel : nat) (i : Z) (s s' : St E) (p : FraudProofData L) :
  _start_dispute E L options fuel i s = (Ret p, s') ->
  exists s1, _getFraudProofData E L options i s = (Ret p, s1).
Proof.
  unfold _start_dispute. intros H.
  apply bind_ret_inv in H. destruct H as (p0 & s1 & Hdata & H).
  apply bind_ret_inv in H. destruct H as (? & s2 & _ & H).
  apply bind_ret_inv in H. destruct H as (? & s3 & _ & H).
  apply bind_ret_inv in H. destruct H as (? & s4 & _ & H).
  cbv zeta in H.
  apply bind_ret_inv in H. destruct H as (? & s5 & _ & H).
  apply bind_ret_inv in H. destruct H as (? & s6 & _ & H).
  apply bind_ret_inv in H. destruct H as (? & s7 & _ & H).
  unfold ret in H. inversion H; subst. exists s1. exact Hdata.
Qed.

(** X21.  When a poll selects index [i] and its dispute runs to the end, the
    batch header whose [prevTotalElements] becomes the cursor is the one the
    settlement chain returned with the state-root proof of index [i - 1], the
    first read of the dispute: the cursor goes back to the start of the batch
    that holds the pre-state root. *)
Theorem poll_rewinds_to_pre_state_batch
    (E : Env) (L : Lib) (options : FraudProverOptions)
    (fuel : nat) (s s1 s2 : St E) (i : Z) (p : FraudProofData L) :
  _findNextFraudulentStateRoot E options fuel s = (Ret (Some i), s1) ->
  _start_dispute E L options fuel i s1 = (Ret p, s2) ->
  Z.abs (prevTotalElements (stateRootBatchHeader (preStateRootProof p))) < 2 ^ 53 ->
  exists pre w1,
    perform E (L1_getStateRootBatchProof (i - 1)) (world s1) = (Ret pre, w1) /\
    _start_iteration E L options fuel s =
    (Ret tt, withCursor s2 (prevTotalElements (stateRootBatchHeader pre))).
Proof.
  intros Hscan Hdispute Hsmall.
  destruct (start_dispute_returns_data E L options fuel i s1 s2 p Hdispute) as (s' & Hdata).
  destruct (getFraudProofData_pre E L options i s1 s' p Hdata) as (w1 & Hpre).
  exists (preStateRootProof p), w1. split; [exact Hpre|].
  rewrite (start_iteration_selected E L options fuel s s1 i Hscan), Hdispute.
  unfold toNumber. apply Z.ltb_lt in Hsmall. rewrite Hsmall. reflexivity.
Qed.

Lemma poll_rewinds_to_pre_state_batch_witness :
  let s := startOf demoEnv demoWorld0 0 in
  let s1 := snd (_findNextFraudulentStateRoot demoEnv demoOptions 10 s) in
  let r := _start_dispute demoEnv listLib demoOptions 10 2 s1 in
  exists pre w1,
    perform demoEnv (L1_getStateRootBatchProof (2 - 1)) (world s1) = (Ret pre, w1) /\
    _start_iteration demoEnv listLib demoOptions 10 s =
    (Ret tt, withCursor (snd r) (prevTotalElements (stateRootBatchHeader pre))).
Proof.
  intros s s1 r.
  apply (poll_rewinds_to_pre_state_batch demoEnv listLib demoOptions 10 s s1 (snd r) 2
           demoProofData).
  - vm_compute. reflexivity.
  - vm_compute. reflexivity.
  - vm_compute. reflexivity.
Defined.


Lemma post_execution_completes_last_witness :
  let s : St demoEnv :=
    {| world := {| dw_initialized := true; dw_phase := POST_EXECUTION;
                   dw_storageLeft := 1; dw_accountsLeft := 1;
                   dw_finalized := false; dw_hasAccount := false;
                   dw_glitches := 0 |} : W demoEnv;
       nextUnverifiedStateRoot := 2;
       sent := [] |} in
  exists commits tail,
    newSubmissions s (snd (_start_postExecution demoEnv listLib demoOptions 10
                             "0x57" "0x53" demoProofData s))
      = commits ++ tail /\
    Forall commitStep commits /\
    atMostOnly (CompleteTransition "0x57") tail /\
    (tail <> [] ->
     exists (s1 s2 : St demoEnv) w,
       _updateAccountStates demoEnv listLib demoOptions 10 "0x57" "0x53"
         (accountStateProofs (stateDiffProof demoProofData)) (stateTrie demoProofData) s1
       = (Ret tt, s2) /\
       perform demoEnv (SM_getTotalUncommittedAccounts "0x53") w = (Ret 0%N, world s2)).
Proof.
  intros s.
  apply (post_execution_completes_last demoEnv listLib demoOptions 10 "0x57" "0x53"
           demoProofData s).
Defined.
